(** * RuleGo: the rule-chain runtime context, the builtin processor registry
    and the DSL variable scanner

    A shallow embedding of
      - engine/chain.go           (module [Engine]),
      - builtin/processor/processor.go (module [Processor]),
      - the dsl package's ParseVars    (module [Dsl]),
    with the properties of the specification stated over it.

    Conventions of the embedding.
      - A Go [string] is a [string] of bytes; [[]byte] is the same data.
      - A Go map is a [gmap]; the nil map reads like the empty one.
      - A Go slice whose identity matters (the successor lists held by the
        relation cache) is a header: backing-array address plus contents,
        [None] being the nil slice.  Addresses come from an allocation
        counter threaded through the code that appends.
      - A Go [(value, error)] or [(value, bool)] result is a pair;
        [option error] is a possibly-nil error.
      - A pointer is an [option] where a nil one is modelled, [None] being
        the nil pointer; an interface value holding a pointer is nil, or
        holds a pointer that may itself be nil.
      - A run-time panic is the [Panic] outcome.
      - RWMutex sections are sequential code: every operation is modelled as
        one atomic step on the state. *)

From stdpp Require Import gmap strings list fin_maps pretty.
From Stdlib Require Import ZArith Ascii.

Local Open Scope Z_scope.
Local Open Scope string_scope.
Local Open Scope list_scope.

(** ** Go run-time outcomes *)

Inductive Outcome (A : Type) : Type :=
| Ret (a : A)
| Panic.
Arguments Ret {A} a.
Arguments Panic {A}.

Definition error := string.

(** ** api/types, as far as the three source files use it

    The package is not among the sources; the records have the fields the
    three files read and write, and [NODE] is the zero value of
    [ComponentType]. *)

Module Types.

Inductive ComponentType := NODE | CHAIN.

#[global] Instance ComponentType_eq_dec : EqDecision ComponentType.
Proof. solve_decision. Defined.

Record RuleNodeId := mkRuleNodeId { Id : string; Type_ : ComponentType }.

#[global] Instance RuleNodeId_eq_dec : EqDecision RuleNodeId.
Proof. solve_decision. Defined.

#[global] Instance ComponentType_countable : Countable ComponentType.
Proof.
  refine (inj_countable' (λ t, match t with NODE => false | CHAIN => true end)
                         (λ b : bool, if b then CHAIN else NODE) _).
  by intros [].
Defined.

#[global] Instance RuleNodeId_countable : Countable RuleNodeId.
Proof.
  refine (inj_countable' (λ i, (Id i, Type_ i))
                         (λ p, mkRuleNodeId p.1 p.2) _).
  by intros [].
Defined.

Record RuleNodeRelation := mkRelation {
  InId : RuleNodeId;
  OutId : RuleNodeId;
  RelationType : string
}.

(** [interface{}] values met in configuration maps. *)
Inductive Any :=
| AnyNil
| AnyString (s : string)
| AnyBool (b : bool)
| AnyInt (z : Z)
| AnyStringMap (m : gmap string string).

(** [types.Configuration = map[string]interface{}] *)
Abbreviation Configuration := (gmap string Any).

Record RuleNode := mkRuleNode {
  node_Id : string;
  node_Type : string;
  node_Name : string;
  node_DebugMode : bool;
  node_Configuration : Configuration
}.

(** [&types.RuleNode{}] *)
Definition emptyRuleNode : RuleNode :=
  mkRuleNode "" "" "" false ∅.

Record NodeConnection := mkNodeConnection {
  conn_FromId : string;
  conn_ToId : string;
  conn_Type : string
}.

Record RuleChainConnection := mkRuleChainConnection {
  rcc_FromId : string;
  rcc_ToId : string;
  rcc_Type : string
}.

(** [Nodes] is a slice of [*RuleNode] in Go; the record lists the nodes
    pointed to, so a definition of this type has no nil entry among its
    nodes. *)
Record RuleMetadata := mkRuleMetadata {
  FirstNodeIndex : Z;
  Nodes : list RuleNode;
  Connections : list NodeConnection;
  RuleChainConnections : list RuleChainConnection
}.

(** [Configuration] is [None] for a nil map. *)
Record RuleChainBaseInfo := mkBaseInfo {
  ID : string;
  Name : string;
  DebugMode : bool;
  Root : bool;
  chain_Configuration : option Configuration
}.

Record RuleChain := mkRuleChain {
  RuleChain_ : RuleChainBaseInfo;
  Metadata : RuleMetadata
}.

(** Modelled from the spec: the constant [types.Vars], declared in
    api/types; the specification names the configuration entry [vars]. *)
Definition Vars : string := "vars".

(** Modelled from the spec: the constant [types.Secrets], declared in
    api/types; the specification names the configuration entry [secrets]. *)
Definition Secrets : string := "secrets".

(** Reading a Go map of interfaces: a missing key reads as nil. *)
Definition cfg_get (c : Configuration) (k : string) : Any :=
  default AnyNil (c !! k).

End Types.

(** ** engine/chain.go *)

Module Engine.
Import Types.

(** Objects held by reference and never inspected by chain.go (registry,
    parser, executor pool, sub-chain contexts, engine pools) are
    represented by their address. *)
Definition Addr := nat.

(** The parts of [types.Config] chain.go reads. *)
Record Config := mkConfig {
  SecretKey : string;
  ComponentsRegistry : Addr;
  Parser : Addr;
  Pool : Addr
}.

(** The node-context layer (node.go), the dispatcher (rule_context.go) and
    the aspect interfaces are outside chain.go: their carrier types are
    parameters. *)
Class NodeLayer := {
  RuleNodeCtx : Type;
  (** [&RuleNodeCtx{}] *)
  emptyRuleNodeCtx : RuleNodeCtx;
  RuleContext : Type;
  Aspect : Type;
  OnReloadAspect : Type;
  OnDestroyAspect : Type
}.

(** A [types.NodeCtx] interface value: nil, a [*RuleNodeCtx], or the
    [*RuleChainCtx] of a sub rule chain.  The pointer of the last is the
    address of that chain context, or [None] for a nil [*RuleChainCtx]
    held by a non-nil interface value. *)
Inductive NodeCtx {NL : NodeLayer} :=
| NilNodeCtx
| OfRuleNode (n : RuleNodeCtx)
| OfRuleChain (c : option Addr).

(** [types.RuleEngine]: what [RootRuleChainCtx()] returns, a value of an
    interface type.  [None] is the nil interface value and [Some c] a
    non-nil one holding the [*RuleChainCtx] [c]; [Some None] is what an
    engine returns that keeps its root in a [*RuleChainCtx] field and hands
    that field out while it is nil. *)
Record RuleEngine := mkRuleEngine { RootRuleChainCtx : option (option Addr) }.

(** [types.RuleEnginePool] values: the process-wide [DefaultPool] or a pool
    installed with [SetRuleChainPool].  Pools are shared mutable objects
    owned by others; [PoolStore] gives their contents at the time of a call. *)
Inductive PoolRef := DefaultPool | PoolAt (a : Addr).
Definition PoolStore := PoolRef → gmap string RuleEngine.

Record RelationCache := mkRelationCache {
  inNodeId : RuleNodeId;
  relationType : string
}.

#[global] Instance RelationCache_eq_dec : EqDecision RelationCache.
Proof. solve_decision. Defined.

#[global] Instance RelationCache_countable : Countable RelationCache.
Proof.
  refine (inj_countable' (λ k, (inNodeId k, relationType k))
                         (λ p, mkRelationCache p.1 p.2) _).
  by intros [].
Defined.

(** *** Slices with identity *)

Record SliceHdr (A : Type) := mkSlice { base : Addr; elems : list A }.
Arguments mkSlice {A} base elems.
Arguments base {A} s.
Arguments elems {A} s.

(** [None] is the nil slice. *)
Definition Slice (A : Type) := option (SliceHdr A).

Definition slice_elems {A} (s : Slice A) : list A :=
  match s with None => [] | Some hd => elems hd end.

Definition len {A} (s : Slice A) : nat := length (slice_elems s).

Definition notNil {A} (s : Slice A) : bool :=
  match s with None => false | Some _ => true end.

(** The allocator: the next free address. *)
Definition Heap := Addr.

(** [append(s, x)].  chain.go only appends to a slice it has just created
    and never reads an intermediate one, so the model lets every append move
    to a fresh backing array. *)
Definition append {A} (h : Heap) (s : Slice A) (x : A) : Heap * Slice A :=
  (S h, Some (mkSlice h (slice_elems s ++ [x]))).

(** *** RuleChainCtx *)

Record RuleChainCtx {NL : NodeLayer} := mkRuleChainCtx {
  rc_Id : RuleNodeId;
  SelfDefinition : RuleChain;
  config : Config;
  initialized : bool;
  componentsRegistry : Addr;
  nodeIds : list RuleNodeId;
  nodes : gmap RuleNodeId NodeCtx;
  nodeRoutes : gmap RuleNodeId (list RuleNodeRelation);
  nodeCtxRoutes : gmap RuleNodeId (list NodeCtx);
  relationCache : gmap RelationCache (Slice NodeCtx);
  (** nil until the build sets it *)
  rootRuleContext : option RuleContext;
  (** nil: fall back to [DefaultPool] *)
  ruleChainPool : option Addr;
  aspects : list Aspect;
  reloadAspects : list OnReloadAspect;
  destroyAspects : list OnDestroyAspect;
  vars : gmap string string;
  decryptSecrets : gmap string string;
  isEmpty : bool
}.

(** The second argument of a reload hook: the chain itself or one of its
    nodes. *)
Inductive Reloaded {NL : NodeLayer} :=
| ReloadedSelf
| ReloadedNode (n : NodeCtx).

(** Calls made on collaborators, in program order. *)
Inductive Event {NL : NodeLayer} :=
| EvNodeDestroy (n : NodeCtx)
| EvOnDestroy (aop : OnDestroyAspect) (chain : RuleChainCtx)
| EvOnReload (aop : OnReloadAspect) (chain : RuleChainCtx) (node : Reloaded)
             (err : option error).

(** Functions chain.go calls and does not define. *)
Class Collaborators {NL : NodeLayer} := {
  (** [InitRuleNodeCtx(config, chainCtx, selfDefinition)]; the chain context
      is the one under construction, as it is at the call. *)
  InitRuleNodeCtx : Config → RuleChainCtx → RuleNode → RuleNodeCtx * option error;
  (** [NewRuleContext(context.TODO(), config, chainCtx, nil, self, pool, nil, nil)] *)
  NewRuleContext : Config → NodeCtx → Addr → RuleContext;
  (** [str.ToStringMapString] *)
  ToStringMapString : Any → gmap string string;
  (** [aes.Decrypt(value, key)] *)
  aes_Decrypt : string → string → string * option error;
  (** [AspectList.GetEngineAspects()], second and third results *)
  GetEngineAspects : list Aspect → list OnReloadAspect * list OnDestroyAspect;
  (** [Parser.DecodeRuleChain(config, aspects, def)]: an error, or a node
      that is a fresh [*RuleChainCtx] (what line 298 asserts) *)
  DecodeRuleChain : Config → list Aspect → string → error + RuleChainCtx;
  (** [OnReloadAspect.OnReload(chain, node, err)] *)
  OnReload : OnReloadAspect → RuleChainCtx → Reloaded → option error → option error;
  (** [NodeCtx.ReloadSelf(def)] of a child *)
  NodeReloadSelf : NodeCtx → string → option error
}.

(** Modelled from the spec: the constant [defaultNodeIdPrefix], declared
    elsewhere in package engine; the specification has an unnamed node
    receive the id [node<index>]. *)
Definition defaultNodeIdPrefix : string := "node".

Section Chain.
Context {NL : NodeLayer} {CB : Collaborators}.

(** Field updates. *)
Definition with_nodeIds (rc : RuleChainCtx) (v : list RuleNodeId) : RuleChainCtx :=
  mkRuleChainCtx _ rc.(rc_Id) rc.(SelfDefinition) rc.(config) rc.(initialized)
    rc.(componentsRegistry) v rc.(nodes) rc.(nodeRoutes) rc.(nodeCtxRoutes)
    rc.(relationCache) rc.(rootRuleContext) rc.(ruleChainPool) rc.(aspects)
    rc.(reloadAspects) rc.(destroyAspects) rc.(vars) rc.(decryptSecrets) rc.(isEmpty).

Definition with_nodes (rc : RuleChainCtx) (v : gmap RuleNodeId NodeCtx) : RuleChainCtx :=
  mkRuleChainCtx _ rc.(rc_Id) rc.(SelfDefinition) rc.(config) rc.(initialized)
    rc.(componentsRegistry) rc.(nodeIds) v rc.(nodeRoutes) rc.(nodeCtxRoutes)
    rc.(relationCache) rc.(rootRuleContext) rc.(ruleChainPool) rc.(aspects)
    rc.(reloadAspects) rc.(destroyAspects) rc.(vars) rc.(decryptSecrets) rc.(isEmpty).

Definition with_nodeRoutes (rc : RuleChainCtx)
    (v : gmap RuleNodeId (list RuleNodeRelation)) : RuleChainCtx :=
  mkRuleChainCtx _ rc.(rc_Id) rc.(SelfDefinition) rc.(config) rc.(initialized)
    rc.(componentsRegistry) rc.(nodeIds) rc.(nodes) v rc.(nodeCtxRoutes)
    rc.(relationCache) rc.(rootRuleContext) rc.(ruleChainPool) rc.(aspects)
    rc.(reloadAspects) rc.(destroyAspects) rc.(vars) rc.(decryptSecrets) rc.(isEmpty).

Definition with_relationCache (rc : RuleChainCtx)
    (v : gmap RelationCache (Slice NodeCtx)) : RuleChainCtx :=
  mkRuleChainCtx _ rc.(rc_Id) rc.(SelfDefinition) rc.(config) rc.(initialized)
    rc.(componentsRegistry) rc.(nodeIds) rc.(nodes) rc.(nodeRoutes) rc.(nodeCtxRoutes)
    v rc.(rootRuleContext) rc.(ruleChainPool) rc.(aspects)
    rc.(reloadAspects) rc.(destroyAspects) rc.(vars) rc.(decryptSecrets) rc.(isEmpty).

Definition with_SelfDefinition (rc : RuleChainCtx) (v : RuleChain) : RuleChainCtx :=
  mkRuleChainCtx _ rc.(rc_Id) v rc.(config) rc.(initialized)
    rc.(componentsRegistry) rc.(nodeIds) rc.(nodes) rc.(nodeRoutes) rc.(nodeCtxRoutes)
    rc.(relationCache) rc.(rootRuleContext) rc.(ruleChainPool) rc.(aspects)
    rc.(reloadAspects) rc.(destroyAspects) rc.(vars) rc.(decryptSecrets) rc.(isEmpty).

Definition with_root (rc : RuleChainCtx) (v : option RuleContext) (e : bool) : RuleChainCtx :=
  mkRuleChainCtx _ rc.(rc_Id) rc.(SelfDefinition) rc.(config) rc.(initialized)
    rc.(componentsRegistry) rc.(nodeIds) rc.(nodes) rc.(nodeRoutes) rc.(nodeCtxRoutes)
    rc.(relationCache) v rc.(ruleChainPool) rc.(aspects)
    rc.(reloadAspects) rc.(destroyAspects) rc.(vars) rc.(decryptSecrets) e.

Definition with_engineAspects (rc : RuleChainCtx) (a : list Aspect)
    (r : list OnReloadAspect) (d : list OnDestroyAspect) : RuleChainCtx :=
  mkRuleChainCtx _ rc.(rc_Id) rc.(SelfDefinition) rc.(config) rc.(initialized)
    rc.(componentsRegistry) rc.(nodeIds) rc.(nodes) rc.(nodeRoutes) rc.(nodeCtxRoutes)
    rc.(relationCache) rc.(rootRuleContext) rc.(ruleChainPool) a r d
    rc.(vars) rc.(decryptSecrets) rc.(isEmpty).

(** [SetRuleChainPool] *)
Definition SetRuleChainPool (rc : RuleChainCtx) (ruleChainPool : option Addr) : RuleChainCtx :=
  mkRuleChainCtx _ rc.(rc_Id) rc.(SelfDefinition) rc.(config) rc.(initialized)
    rc.(componentsRegistry) rc.(nodeIds) rc.(nodes) rc.(nodeRoutes) rc.(nodeCtxRoutes)
    rc.(relationCache) rc.(rootRuleContext) ruleChainPool rc.(aspects)
    rc.(reloadAspects) rc.(destroyAspects) rc.(vars) rc.(decryptSecrets) rc.(isEmpty).

(** [GetRuleChainPool] *)
Definition GetRuleChainPool (rc : RuleChainCtx) : PoolRef :=
  match rc.(ruleChainPool) with
  | None => DefaultPool
  | Some p => PoolAt p
  end.

(** [SetAspects] *)
Definition SetAspects (rc : RuleChainCtx) (aspects : list Aspect) : RuleChainCtx :=
  let '(reloadAspects, destroyAspects) := GetEngineAspects aspects in
  with_engineAspects rc aspects reloadAspects destroyAspects.

(** [decryptSecret]: one iteration of the loop, and the loop over the
    entries in the order the map iteration yields them. *)
Definition decryptEntry (secretKey : string) (result : gmap string string)
    (kv : string * string) : gmap string string :=
  let '(key, value) := kv in
  match aes_Decrypt value secretKey with
  | (plaintext, None) => <[key := plaintext]> result
  | (_, Some _) => <[key := value]> result
  end.

Definition decryptSecret_in (order : list (string * string)) (secretKey : string)
    : gmap string string :=
  fold_left (decryptEntry secretKey) order ∅.

Definition decryptSecret (inputMap : gmap string string) (secretKey : string)
    : gmap string string :=
  decryptSecret_in (map_to_list inputMap) secretKey.

(** [GetNodeById].  Line 180 compares the interface value that
    [RootRuleChainCtx()] returns with nil; the pointer inside it is not
    looked at. *)
Definition GetNodeById (ps : PoolStore) (rc : RuleChainCtx) (id : RuleNodeId)
    : NodeCtx * bool :=
  match Type_ id with
  | CHAIN =>
      match ps (GetRuleChainPool rc) !! Id id with
      | Some subRuleEngine =>
          match RootRuleChainCtx subRuleEngine with
          | Some c => (OfRuleChain c, true)
          | None => (NilNodeCtx, false)
          end
      | None => (NilNodeCtx, false)
      end
  | NODE =>
      match rc.(nodes) !! id with
      | Some ruleNodeCtx => (ruleNodeCtx, true)
      | None => (NilNodeCtx, false)
      end
  end.

(** [GetNodeByIndex]: [index] is a Go [int]; indexing [nodeIds] with a
    negative value panics. *)
Definition GetNodeByIndex (ps : PoolStore) (rc : RuleChainCtx) (index : Z)
    : Outcome (NodeCtx * bool) :=
  if (index >=? Z.of_nat (length rc.(nodeIds)))%Z then
    Ret (OfRuleNode emptyRuleNodeCtx, false)
  else
    match (if (index <? 0)%Z then None else rc.(nodeIds) !! Z.to_nat index) with
    | Some id => Ret (GetNodeById ps rc id)
    | None => Panic
    end.

(** [GetFirstNode] *)
Definition GetFirstNode (ps : PoolStore) (rc : RuleChainCtx) : Outcome (NodeCtx * bool) :=
  let firstNodeIndex := FirstNodeIndex (Metadata rc.(SelfDefinition)) in
  GetNodeByIndex ps rc firstNodeIndex.

(** [GetNodeRoutes] *)
Definition GetNodeRoutes (rc : RuleChainCtx) (id : RuleNodeId)
    : list RuleNodeRelation * bool :=
  match rc.(nodeRoutes) !! id with
  | Some relations => (relations, true)
  | None => ([], false)
  end.

(** [GetNextNodes]: the body of the loop over the relations of the source
    node, then the function.  The state is the chain context and the
    allocator.  The function takes the lock three times (cache read,
    resolution, cache write); a call is one step here, so calls do not
    overlap. *)
Definition nextNodesStep (ps : PoolStore) (rc : RuleChainCtx) (relationType : string)
    (acc : Heap * Slice NodeCtx * bool) (item : RuleNodeRelation)
    : Heap * Slice NodeCtx * bool :=
  let '(h, nodeCtxList, hasNextComponents) := acc in
  if String.eqb (RelationType item) relationType then
    match GetNodeById ps rc (OutId item) with
    | (nodeCtx, true) =>
        let '(h', nodeCtxList') := append h nodeCtxList nodeCtx in
        (h', nodeCtxList', true)
    | (_, false) => acc
    end
  else acc.

Definition GetNextNodes (ps : PoolStore) (id : RuleNodeId) (relationType : string)
    (st : RuleChainCtx * Heap) : (Slice NodeCtx * bool) * (RuleChainCtx * Heap) :=
  let '(rc, h) := st in
  let cacheKey := mkRelationCache id relationType in
  match rc.(relationCache) !! cacheKey with
  | Some nodeCtxList => ((nodeCtxList, notNil nodeCtxList), st)
  | None =>
      let '(relations, ok) := GetNodeRoutes rc id in
      let '(h', nodeCtxList, hasNextComponents) :=
        if ok then fold_left (nextNodesStep ps rc relationType) relations (h, None, false)
        else (h, None, false) in
      ((nodeCtxList, hasNextComponents),
       (with_relationCache rc (<[cacheKey := nodeCtxList]> rc.(relationCache)), h'))
  end.

(** [InitRuleChainCtx], loop 1: load the nodes.  [item] is a [*RuleNode]
    shared with the definition, so the id given to an unnamed node is
    written into the definition as well. *)
Definition setNodeId (item : RuleNode) (id : string) : RuleNode :=
  mkRuleNode id (node_Type item) (node_Name item) (node_DebugMode item)
             (node_Configuration item).

Definition setDefinitionNode (def : RuleChain) (index : nat) (item : RuleNode) : RuleChain :=
  mkRuleChain (RuleChain_ def)
    (mkRuleMetadata (FirstNodeIndex (Metadata def))
                    (<[index := item]> (Nodes (Metadata def)))
                    (Connections (Metadata def))
                    (RuleChainConnections (Metadata def))).

Fixpoint loadNodes (config : Config) (index : nat) (items : list RuleNode)
    (ruleChainCtx : RuleChainCtx) : error + RuleChainCtx :=
  match items with
  | [] => inr ruleChainCtx
  | item :: rest =>
      let item :=
        if String.eqb (node_Id item) "" then
          setNodeId item (defaultNodeIdPrefix +:+ pretty index)
        else item in
      let ruleChainCtx :=
        with_SelfDefinition ruleChainCtx
          (setDefinitionNode ruleChainCtx.(SelfDefinition) index item) in
      let ruleNodeId := mkRuleNodeId (node_Id item) NODE in
      let ruleChainCtx :=
        with_nodeIds ruleChainCtx (<[index := ruleNodeId]> ruleChainCtx.(nodeIds)) in
      match InitRuleNodeCtx config ruleChainCtx item with
      | (_, Some err) => inl err
      | (ruleNodeCtx, None) =>
          loadNodes config (S index) rest
            (with_nodes ruleChainCtx
               (<[ruleNodeId := OfRuleNode ruleNodeCtx]> ruleChainCtx.(nodes)))
      end
  end.

(** Loops 2 and 3: load the node-to-node and node-to-sub-chain relations. *)
Definition addRoute (routes : gmap RuleNodeId (list RuleNodeRelation))
    (ruleNodeRelation : RuleNodeRelation) : gmap RuleNodeId (list RuleNodeRelation) :=
  let inNodeId := InId ruleNodeRelation in
  let nodeRelations :=
    match routes !! inNodeId with
    | Some nodeRelations => nodeRelations ++ [ruleNodeRelation]
    | None => [ruleNodeRelation]
    end in
  <[inNodeId := nodeRelations]> routes.

Definition nodeRelation (item : NodeConnection) : RuleNodeRelation :=
  mkRelation (mkRuleNodeId (conn_FromId item) NODE)
             (mkRuleNodeId (conn_ToId item) NODE)
             (conn_Type item).

Definition chainRelation (item : RuleChainConnection) : RuleNodeRelation :=
  mkRelation (mkRuleNodeId (rcc_FromId item) NODE)
             (mkRuleNodeId (rcc_ToId item) CHAIN)
             (rcc_Type item).

Definition loadConnections (conns : list NodeConnection)
    (routes : gmap RuleNodeId (list RuleNodeRelation)) :=
  fold_left (λ routes item, addRoute routes (nodeRelation item)) conns routes.

Definition loadRuleChainConnections (conns : list RuleChainConnection)
    (routes : gmap RuleNodeId (list RuleNodeRelation)) :=
  fold_left (λ routes item, addRoute routes (chainRelation item)) conns routes.

(** [InitRuleChainCtx], lines 79 to 101: the struct literal, the chain id,
    the vars and secrets of the configuration, and the zeroed [nodeIds].
    The definition is a non-nil [*types.RuleChain] (line 89 dereferences it
    before anything else). *)
Definition newRuleChainCtx (config : Config) (aspects : list Aspect)
    (ruleChainDef : RuleChain) : RuleChainCtx :=
  let Id :=
    if String.eqb (ID (RuleChain_ ruleChainDef)) "" then mkRuleNodeId "" NODE
    else mkRuleNodeId (ID (RuleChain_ ruleChainDef)) CHAIN in
  let '(vars, decryptSecrets) :=
    match chain_Configuration (RuleChain_ ruleChainDef) with
    | Some configuration =>
        let varsConfig := cfg_get configuration Vars in
        let envConfig := cfg_get configuration Secrets in
        let secrets := ToStringMapString envConfig in
        (ToStringMapString varsConfig, decryptSecret secrets (SecretKey config))
    | None => (∅, ∅)
    end in
  let nodeLen := length (Nodes (Metadata ruleChainDef)) in
  mkRuleChainCtx _ Id ruleChainDef config true (ComponentsRegistry config)
    (replicate nodeLen (mkRuleNodeId "" NODE)) ∅ ∅ ∅ ∅ None None aspects [] []
    vars decryptSecrets false.

(** Lines 152 to 161: the root rule context, from the first node or from a
    synthesized empty node. *)
Definition initRoot (ps : PoolStore) (config : Config) (ruleChainCtx : RuleChainCtx)
    : Outcome RuleChainCtx :=
  match GetFirstNode ps ruleChainCtx with
  | Panic => Panic
  | Ret (firstNode, true) =>
      Ret (with_root ruleChainCtx
             (Some (NewRuleContext ruleChainCtx.(Engine.config) firstNode (Pool config)))
             ruleChainCtx.(isEmpty))
  | Ret (_, false) =>
      let '(ruleNodeCtx, _) := InitRuleNodeCtx config ruleChainCtx emptyRuleNode in
      Ret (with_root ruleChainCtx
             (Some (NewRuleContext ruleChainCtx.(Engine.config) (OfRuleNode ruleNodeCtx)
                      (Pool config)))
             true)
  end.

(** [InitRuleChainCtx] *)
Definition InitRuleChainCtx (ps : PoolStore) (config : Config) (aspects : list Aspect)
    (ruleChainDef : RuleChain) : Outcome (error + RuleChainCtx) :=
  let ruleChainCtx := newRuleChainCtx config aspects ruleChainDef in
  match loadNodes config 0 (Nodes (Metadata ruleChainDef)) ruleChainCtx with
  | inl err => Ret (inl err)
  | inr ruleChainCtx =>
      let routes :=
        loadConnections (Connections (Metadata ruleChainDef)) ruleChainCtx.(nodeRoutes) in
      let routes :=
        loadRuleChainConnections (RuleChainConnections (Metadata ruleChainDef)) routes in
      let ruleChainCtx := with_nodeRoutes ruleChainCtx routes in
      match initRoot ps config ruleChainCtx with
      | Panic => Panic
      | Ret ruleChainCtx =>
          let '(reloadAspects, destroyAspects) := GetEngineAspects aspects in
          Ret (inr (with_engineAspects ruleChainCtx ruleChainCtx.(Engine.aspects)
                      reloadAspects destroyAspects))
      end
  end.

(** [Copy]: the assignments of lines 337 to 353, field by field. *)
Definition Copy (rc newCtx : RuleChainCtx) : RuleChainCtx :=
  mkRuleChainCtx _
    newCtx.(rc_Id)
    newCtx.(SelfDefinition)
    newCtx.(config)
    newCtx.(initialized)
    newCtx.(componentsRegistry)
    newCtx.(nodeIds)
    newCtx.(nodes)
    newCtx.(nodeRoutes)
    rc.(nodeCtxRoutes)
    ∅
    newCtx.(rootRuleContext)
    newCtx.(ruleChainPool)
    newCtx.(aspects)
    newCtx.(reloadAspects)
    newCtx.(destroyAspects)
    newCtx.(vars)
    newCtx.(decryptSecrets)
    rc.(isEmpty).

(** [Destroy]: every node, in the order the map iteration yields them, then
    the destroy hooks. *)
Definition Destroy (rc : RuleChainCtx) : list Event :=
  map (λ kv, EvNodeDestroy kv.2) (map_to_list rc.(nodes))
  ++ map (λ aop, EvOnDestroy aop rc) rc.(destroyAspects).

(** The reload-hook loop shared by [ReloadSelf] and [ReloadChild]; the
    result is the function's return value. *)
Fixpoint runReloadAspects (aops : list OnReloadAspect) (rc : RuleChainCtx)
    (node : Reloaded) (err : option error) : list Event * option error :=
  match aops with
  | [] => ([], err)
  | aop :: rest =>
      match OnReload aop rc node err with
      | Some err' => ([EvOnReload aop rc node err], Some err')
      | None =>
          let '(evs, r) := runReloadAspects rest rc node err in
          (EvOnReload aop rc node err :: evs, r)
      end
  end.

(** [ReloadSelf] *)
Definition ReloadSelf (rc : RuleChainCtx) (def : string)
    : list Event * RuleChainCtx * option error :=
  let '(evs, rc, err) :=
    match DecodeRuleChain rc.(config) rc.(aspects) def with
    | inr ctx => (Destroy rc, Copy rc ctx, None)
    | inl err => ([], rc, Some err)
    end in
  let '(hookEvs, r) := runReloadAspects rc.(reloadAspects) rc ReloadedSelf err in
  (evs ++ hookEvs, rc, r).


End Chain.
End Engine.

(** ** builtin/processor/processor.go *)

Module Processor.

(** An [endpoint.Process] value is a function or nil; [P] is the type of
    the functions and [None] the nil one. *)
Definition Process (P : Type) := option P.

(** The [builtins] struct without its lock; [processors] is [None] while the
    map is nil. *)
Record builtins (P : Type) := mkBuiltins {
  processors : option (gmap string (Process P))
}.
Arguments mkBuiltins {P} processors.
Arguments processors {P} b.

(** [var Builtins = builtins{}] *)
Definition Builtins {P} : builtins P := mkBuiltins None.

(** [Register] *)
Definition Register {P} (b : builtins P) (name : string) (processor : Process P)
    : builtins P :=
  let m := match processors b with
           | None => ∅
           | Some m => m
           end in
  mkBuiltins (Some (<[name := processor]> m)).

(** [RegisterAll]; [order] is the order the iteration over the argument map
    takes. *)
Definition RegisterAll_in {P} (b : builtins P) (order : list (string * Process P))
    : builtins P :=
  let m := match processors b with
           | None => ∅
           | Some m => m
           end in
  mkBuiltins (Some (fold_left (λ m kv, <[kv.1 := kv.2]> m) order m)).

Definition RegisterAll {P} (b : builtins P) (ps : gmap string (Process P)) : builtins P :=
  RegisterAll_in b (map_to_list ps).

(** [Unregister(names...)]: [delete] on a nil map does nothing. *)
Definition Unregister {P} (b : builtins P) (names : list string) : builtins P :=
  fold_left
    (λ b name,
       match processors b with
       | None => b
       | Some m => mkBuiltins (Some (delete name m))
       end)
    names b.

(** [Get] *)
Definition Get {P} (b : builtins P) (name : string) : Process P * bool :=
  match processors b with
  | None => (None, false)
  | Some m =>
      match m !! name with
      | Some p => (p, true)
      | None => (None, false)
      end
  end.

End Processor.

(** ** dsl: ParseVars *)

Module Dsl.
Import Types.

(** Functions of other packages, which this package calls and does not
    define: the two scanners of utils/str, and the part of
    [strings.ToLower] that consults the Unicode tables. *)
Class StrScanners := {
  (** [str.ParseVars]: the [vars.xx] convention *)
  str_ParseVars : string → list string;
  (** [str.ParseVarsWithBraces]: the [${vars.xx}] convention *)
  str_ParseVarsWithBraces : string → list string;
  (** [strings.Map(unicode.ToLower, s)]: every rune of [s] replaced by its
      lower case *)
  unicode_ToLower : string → string
}.

(** A byte below [utf8.RuneSelf], and a string of such bytes. *)
Definition isASCIIByte (c : ascii) : bool := (nat_of_ascii c <? 128)%nat.

Fixpoint isASCII (s : string) : bool :=
  match s with
  | EmptyString => true
  | String c s' => isASCIIByte c && isASCII s'
  end.

(** The byte loop of [strings.ToLower]: 'A'..'Z' move to 'a'..'z', every
    other byte is kept. *)
Definition lowerByte (c : ascii) : ascii :=
  let n := nat_of_ascii c in
  if (65 <=? n)%nat && (n <=? 90)%nat then ascii_of_nat (n + 32) else c.

Fixpoint lowerBytes (s : string) : string :=
  match s with
  | EmptyString => EmptyString
  | String c s' => String (lowerByte c) (lowerBytes s')
  end.

(** [strings.Contains] *)
Fixpoint Contains (s substr : string) : bool :=
  String.prefix substr s
  || match s with
     | EmptyString => false
     | String _ s' => Contains s' substr
     end.

(** Specification side: the byte [a] is the byte [b] in either case, [b]
    being a lower-case letter or no letter; two strings are equal up to the
    case of their ASCII letters; [name] has a part that is [word] up to
    case, [word] being in lower case. *)
Definition isLowerByte (c : ascii) : bool :=
  (97 <=? nat_of_ascii c)%nat && (nat_of_ascii c <=? 122)%nat.

Definition eitherCase (b a : ascii) : bool :=
  Ascii.eqb a b || (isLowerByte b && (nat_of_ascii a + 32 =? nat_of_ascii b)%nat).

Fixpoint equalIgnoringCase (mid word : string) : bool :=
  match mid, word with
  | EmptyString, EmptyString => true
  | String a mid', String b word' => eitherCase b a && equalIgnoringCase mid' word'
  | _, _ => false
  end.

Definition containsIgnoringCase (name word : string) : Prop :=
  ∃ pre mid post, name = pre +:+ mid +:+ post ∧ equalIgnoringCase mid word = true.

(** Specification side: every byte of the name is an ASCII character. *)
Definition asciiName (name : string) : Prop :=
  Forall (λ c, (nat_of_ascii c < 128)%nat) (String.list_ascii_of_string name).

Section ParseVars.
Context `{StrScanners}.

(** [strings.ToLower]: a string of ASCII bytes is lowered byte by byte; a
    string with a byte from 0x80 on is handed to
    [strings.Map(unicode.ToLower, s)]. *)
Definition ToLower (s : string) : string :=
  if isASCII s then lowerBytes s else unicode_ToLower s.

(** Specification side: the name of a script field contains "script"
    whatever the case of its letters.  For a name of ASCII characters that
    is [containsIgnoringCase]; the case of a letter outside ASCII is what
    the Unicode tables make it, so any other name is taken as they lower
    it. *)
Definition scriptName (fieldName : string) : Prop :=
  (asciiName fieldName ∧ containsIgnoringCase fieldName "script")
  ∨ (¬ asciiName fieldName
     ∧ ∃ pre post, unicode_ToLower fieldName = pre +:+ "script" +:+ post).

(** Lines 31 to 38: the variables of a string-valued field. *)
Definition fieldVars (fieldName strV : string) : list string :=
  if Contains (ToLower fieldName) "script" then str_ParseVars strV
  else str_ParseVarsWithBraces strV.

(** Lines 30 to 42: what one configuration field adds to [mergeVars]. *)
Definition scanField (mergeVars : gset string) (field : string * Any) : gset string :=
  let '(fieldName, fieldValue) := field in
  match fieldValue with
  | AnyString strV =>
      let vars := fieldVars fieldName strV in
      fold_left (λ mergeVars v, {[ v ]} ∪ mergeVars) vars mergeVars
  | _ => mergeVars
  end.

Definition scanNode (mergeVars : gset string) (node : RuleNode) : gset string :=
  fold_left scanField (map_to_list (node_Configuration node)) mergeVars.

(** [ParseVars] on a definition of [Types], all of whose nodes are non-nil
    [*RuleNode]s.  The result lists the keys of [mergeVars] in the order of
    a map iteration, which Go leaves unspecified; the model takes the order
    of [elements]. *)
Definition ParseVars (def : RuleChain) : list string :=
  let mergeVars := fold_left scanNode (Nodes (Metadata def)) ∅ in
  elements mergeVars.

(** [ParseVars] as a function of the slice [def.Metadata.Nodes], the one
    part of [def] it reads, as Go has it: a slice of [*types.RuleNode] in
    which [None] is a nil pointer.  Line 29 reads [node.Configuration],
    which dereferences the pointer. *)
Fixpoint scanNodePtrs (nodes : list (option RuleNode)) (mergeVars : gset string)
    : Outcome (gset string) :=
  match nodes with
  | [] => Ret mergeVars
  | None :: _ => Panic
  | Some node :: rest => scanNodePtrs rest (scanNode mergeVars node)
  end.

Definition ParseVarsOfNodes (nodes : list (option RuleNode)) : Outcome (list string) :=
  match scanNodePtrs nodes ∅ with
  | Ret mergeVars => Ret (elements mergeVars)
  | Panic => Panic
  end.

End ParseVars.
End Dsl.

(** ** Specification-side vocabulary for the chain context *)

Module ChainSpec.
Import Types Engine.

Section Vocabulary.
Context {NL : NodeLayer} {CB : Collaborators}.

(** The relations of a definition in definition order: the node-to-node
    connections, then the node-to-sub-chain connections (the order in which
    the build appends them to the routes). *)
Definition relations_of (def : RuleChain) : list RuleNodeRelation :=
  map nodeRelation (Connections (Metadata def))
  ++ map chainRelation (RuleChainConnections (Metadata def)).

(** A relation leaves [f] with label [l]. *)
Definition matching (f : RuleNodeId) (l : string) (r : RuleNodeRelation) : bool :=
  bool_decide (InId r = f) && String.eqb (RelationType r) l.

(** A target is resolvable when it is a NODE-kind id present in [nodes], or
    a CHAIN-kind id whose pool entry has a non-nil root chain context
    (non-nil as line 180 tests it: the interface value is not nil);
    [resolve] gives the node context it resolves to. *)
Definition resolve (ps : PoolStore) (rc : RuleChainCtx) (t : RuleNodeId) : option NodeCtx :=
  match Type_ t with
  | NODE => rc.(nodes) !! t
  | CHAIN =>
      e ← ps (GetRuleChainPool rc) !! Id t;
      c ← RootRuleChainCtx e;
      Some (OfRuleChain c)
  end.

(** The successors of a list of relations: the resolved targets of the
    resolvable ones, in order. *)
Definition successors (ps : PoolStore) (rc : RuleChainCtx) (rels : list RuleNodeRelation)
    : list NodeCtx :=
  omap (λ r, resolve ps rc (OutId r)) rels.

(** The relations of a list that carry label [l]. *)
Definition labelled (l : string) (rels : list RuleNodeRelation) : list RuleNodeRelation :=
  filter (λ r, String.eqb (RelationType r) l = true) rels.

Definition nonempty {A} (l : list A) : bool :=
  match l with [] => false | _ => true end.

(** The slice a resolution builds from the successors it found, starting
    from slice [s] with the allocator at [h]. *)
Definition built (h : Heap) (s : Slice NodeCtx) (succ : list NodeCtx) : Slice NodeCtx :=
  match succ with
  | [] => s
  | _ => Some (mkSlice (h + length succ - 1)%nat (slice_elems s ++ succ))
  end.

(** What resolving [(f, l)] from the routes of [rc] yields. *)
Definition resolution (ps : PoolStore) (rc : RuleChainCtx) (f : RuleNodeId) (l : string)
    : list NodeCtx :=
  successors ps rc (labelled l (GetNodeRoutes rc f).1).

(** Operations on a chain context, each with the pool contents at the time
    of the call where it reads them. *)
Inductive Op :=
| OpGetNextNodes (ps : PoolStore) (id : RuleNodeId) (relationType : string)
| OpReloadSelf (def : string)
| OpReloadChild (ps : PoolStore) (id : RuleNodeId) (def : string)
| OpSetAspects (aspects : list Aspect)
| OpSetRuleChainPool (ruleChainPool : option Addr).

(** The whole-chain reload. *)
Definition isReload (op : Op) : bool :=
  match op with
  | OpReloadSelf _ => true
  | _ => false
  end.

Definition exec (st : RuleChainCtx * Heap) (op : Op) : RuleChainCtx * Heap :=
  match op with
  | OpGetNextNodes ps id relationType => (GetNextNodes ps id relationType st).2
  | OpReloadSelf def => ((ReloadSelf st.1 def).1.2, st.2)
  | OpReloadChild ps id def => st
  | OpSetAspects aspects => (SetAspects st.1 aspects, st.2)
  | OpSetRuleChainPool p => (SetRuleChainPool st.1 p, st.2)
  end.

Definition execAll (ops : list Op) (st : RuleChainCtx * Heap) : RuleChainCtx * Heap :=
  fold_left exec ops st.

(** A run of [GetNextNodes] calls with the pools left as they are. *)
Definition callsOn (ps : PoolStore) (calls : list (RuleNodeId * string)) : list Op :=
  map (λ c, OpGetNextNodes ps c.1 c.2) calls.

(** A target that is not found: a NODE-kind id absent from [nodes], a
    CHAIN-kind id absent from the sub-chain pool, or one whose engine
    returns the nil interface value as its root chain context. *)
Definition unresolvable (ps : PoolStore) (rc : RuleChainCtx) (t : RuleNodeId) : Prop :=
  match Type_ t with
  | NODE => rc.(nodes) !! t = None
  | CHAIN =>
      match ps (GetRuleChainPool rc) !! Id t with
      | None => True
      | Some e => RootRuleChainCtx e = None
      end
  end.

(** The relation cache holds, for every key, what resolution yields. *)
Definition cache_consistent (ps : PoolStore) (rc : RuleChainCtx) : Prop :=
  ∀ k s, rc.(relationCache) !! k = Some s →
         slice_elems s = resolution ps rc (inNodeId k) (relationType k).

(** A cached list is nil exactly when it is empty. *)
Definition cache_wf (rc : RuleChainCtx) : Prop :=
  ∀ k s, rc.(relationCache) !! k = Some s →
         notNil s = bool_decide (0 < len s)%nat.

(** What loading the nodes leaves alone. *)
Definition unchanged_by_loading (rc rc' : RuleChainCtx) : Prop :=
  nodeRoutes rc' = nodeRoutes rc
  ∧ relationCache rc' = relationCache rc
  ∧ ruleChainPool rc' = ruleChainPool rc
  ∧ vars rc' = vars rc
  ∧ decryptSecrets rc' = decryptSecrets rc
  ∧ isEmpty rc' = isEmpty rc
  ∧ Engine.config rc' = Engine.config rc
  ∧ length (nodeIds rc') = length (nodeIds rc)
  ∧ FirstNodeIndex (Metadata (SelfDefinition rc'))
    = FirstNodeIndex (Metadata (SelfDefinition rc)).

(** The relations of a definition that leave [f] with label [l], in
    definition order. *)
Definition matching_relations (def : RuleChain) (f : RuleNodeId) (l : string)
    : list RuleNodeRelation :=
  filter (λ r, matching f l r = true) (relations_of def).

(** The call [OnReload(this, this, err)] of a reload hook. *)
Definition selfReloadCall (this : RuleChainCtx) (err : option error)
    (aop : OnReloadAspect) : Event :=
  EvOnReload aop this ReloadedSelf err.

(** The error of a decoding, nil on success. *)
Definition decodeError (decoded : error + RuleChainCtx) : option error :=
  match decoded with
  | inl e => Some e
  | inr _ => None
  end.

(** The plaintext of a secret when it decrypts, the secret itself when it
    does not. *)
Definition plainOrVerbatim (secretKey : string) (value : string) : string :=
  match aes_Decrypt value secretKey with
  | (plaintext, None) => plaintext
  | (_, Some _) => value
  end.

End Vocabulary.
End ChainSpec.

(** ** A concrete node layer and concrete collaborators, to run the code on *)

Module Sample.
Import Types Engine.

(** What the dispatcher seed points at. *)
Inductive Seed :=
| SeedNil
| SeedNode (n : option RuleNode)
| SeedChain (c : option Addr).

(** A node context remembers the definition it was built from;
    [&RuleNodeCtx{}] has none.  Aspects are numbered: the even ones are
    reload hooks, the odd ones destroy hooks. *)
#[global] Instance layer : NodeLayer := {|
  RuleNodeCtx := option RuleNode;
  emptyRuleNodeCtx := None;
  RuleContext := Seed;
  Aspect := nat;
  OnReloadAspect := nat;
  OnDestroyAspect := nat
|}.

(** The node builder rejects a definition without a component type, as the
    registry has no component of that name, and hands back [&RuleNodeCtx{}]. *)
Definition sampleInitRuleNodeCtx (_ : Config) (_ : RuleChainCtx) (n : RuleNode)
    : option RuleNode * option error :=
  if String.eqb (node_Type n) "" then (None, Some "component not found")
  else (Some n, None).

Definition sampleNewRuleContext (_ : Config) (n : NodeCtx) (_ : Addr) : Seed :=
  match n with
  | NilNodeCtx => SeedNil
  | OfRuleNode x => SeedNode x
  | OfRuleChain c => SeedChain c
  end.

Definition sampleToStringMapString (v : Any) : gmap string string :=
  match v with
  | AnyStringMap m => m
  | _ => ∅
  end.

(** A toy cipher: a ciphertext is ["enc:"] followed by the plaintext. *)
Definition sampleDecrypt (value _key : string) : string * option error :=
  if String.prefix "enc:" value then (String.substring 4 (String.length value - 4) value, None)
  else ("", Some "cipher: message authentication failed").

Definition sampleGetEngineAspects (l : list nat) : list nat * list nat :=
  (filter (λ a, Nat.even a = true) l, filter (λ a, Nat.even a = false) l).

(** Reload hook 4 fails; the others succeed. *)
Definition sampleOnReload (aop : nat) (_ : RuleChainCtx) (_ : Reloaded)
    (_ : option error) : option error :=
  if Nat.eqb aop 4 then Some "hook 4 refused" else None.

(** Collaborators whose parser rejects everything: enough to build. *)
Definition builders : Collaborators := {|
  InitRuleNodeCtx := sampleInitRuleNodeCtx;
  NewRuleContext := sampleNewRuleContext;
  ToStringMapString := sampleToStringMapString;
  aes_Decrypt := sampleDecrypt;
  GetEngineAspects := sampleGetEngineAspects;
  DecodeRuleChain := λ _ _ _, inl "no parser";
  OnReload := sampleOnReload;
  NodeReloadSelf := λ _ _, None
|}.

(** The default pool holds [sub1] with a root chain context and [sub2]
    whose root is the nil interface value; no other pool holds anything. *)
Definition pools : PoolStore :=
  λ p, match p with
       | DefaultPool => {[ "sub1" := mkRuleEngine (Some (Some 100%nat));
                           "sub2" := mkRuleEngine None ]}
       | PoolAt _ => ∅
       end.

Definition cfg : Config := mkConfig "key" 1%nat 2%nat 3%nat.

Definition node (id : string) : RuleNode := mkRuleNode id "jsFilter" id false ∅.

Definition chainOf (first : Z) (ns : list RuleNode) (cs : list NodeConnection)
    (rs : list RuleChainConnection) (c : option Configuration) : RuleChain :=
  mkRuleChain (mkBaseInfo "chain1" "" false true c) (mkRuleMetadata first ns cs rs).

(** The chain with no node. *)
Definition emptyChain : RuleChain := chainOf 0 [] [] [] None.

(** One node [a]. *)
Definition oneNodeChain : RuleChain := chainOf 0 [node "a"] [] [] None.

(** Nodes [a], [b], [c]; [a] goes to [b] twice and to [c] on Success, to a
    missing node [zz], and to the sub-chains [sub1], [sub2] and [sub9]. *)
Definition fanChain : RuleChain :=
  chainOf 0 [node "a"; node "b"; node "c"]
    [mkNodeConnection "a" "b" "Success"; mkNodeConnection "a" "zz" "Success";
     mkNodeConnection "a" "c" "Failure"; mkNodeConnection "a" "b" "Success";
     mkNodeConnection "a" "c" "Success"]
    [mkRuleChainConnection "a" "sub9" "Success";
     mkRuleChainConnection "a" "sub1" "Success";
     mkRuleChainConnection "a" "sub2" "Success"]
    None.

(** A parser that knows three documents. *)
Definition sampleDecode (ps : PoolStore) (config : Config) (aspects : list nat)
    (def : string) : error + RuleChainCtx :=
  let build d :=
    match InitRuleChainCtx (CB := builders) ps config aspects d with
    | Ret r => r
    | Panic => inl "panic"
    end in
  if String.eqb def "empty" then build emptyChain
  else if String.eqb def "one" then build oneNodeChain
  else if String.eqb def "fan" then build fanChain
  else inl "invalid character".

Definition collaborators : Collaborators := {|
  InitRuleNodeCtx := sampleInitRuleNodeCtx;
  NewRuleContext := sampleNewRuleContext;
  ToStringMapString := sampleToStringMapString;
  aes_Decrypt := sampleDecrypt;
  GetEngineAspects := sampleGetEngineAspects;
  DecodeRuleChain := sampleDecode pools;
  OnReload := sampleOnReload;
  NodeReloadSelf := λ _ _, None
|}.

(** The context built from [fanChain] with aspects 2, 3 and 4, and the ones
    built from [emptyChain] and [oneNodeChain] with aspects 2 and 3. *)
Definition zeroCtx : RuleChainCtx :=
  mkRuleChainCtx _ (mkRuleNodeId "" NODE) emptyChain cfg false 0%nat [] ∅ ∅ ∅ ∅
    None None [] [] [] ∅ ∅ false.

Definition builtOr (o : Outcome (error + RuleChainCtx)) : RuleChainCtx :=
  match o with
  | Ret (inr rc) => rc
  | _ => zeroCtx
  end.

Definition fanCtx : RuleChainCtx :=
  Eval vm_compute in
    builtOr (InitRuleChainCtx (CB := collaborators) pools cfg [2; 3; 4]%nat fanChain).

Definition emptyCtx : RuleChainCtx :=
  Eval vm_compute in
    builtOr (InitRuleChainCtx (CB := collaborators) pools cfg [2; 3]%nat emptyChain).

Definition oneNodeCtx : RuleChainCtx :=
  Eval vm_compute in
    builtOr (InitRuleChainCtx (CB := collaborators) pools cfg [2; 3]%nat oneNodeChain).

Definition a : RuleNodeId := mkRuleNodeId "a" NODE.

(** One node, and a configuration with one secret that decrypts, one that
    does not, and one variable. *)
Definition secretChain : RuleChain :=
  chainOf 0 [node "a"] [] []
    (Some {[ "secrets" := AnyStringMap {[ "db" := "enc:hunter2"; "api" := "plain" ]};
             "vars" := AnyStringMap {[ "region" := "eu" ]} ]}).

Definition secretCtx : RuleChainCtx :=
  Eval vm_compute in
    builtOr (InitRuleChainCtx (CB := collaborators) pools cfg [2; 3]%nat secretChain).

(** Pools that hold nothing. *)
Definition noPools : PoolStore := λ _, ∅.

(** The default pool with [sub1] as before and [sub2] an engine without a
    root chain context that reports it as a nil [*RuleChainCtx]. *)
Definition nilRootPools : PoolStore :=
  λ p, match p with
       | DefaultPool => {[ "sub1" := mkRuleEngine (Some (Some 100%nat));
                           "sub2" := mkRuleEngine (Some None) ]}
       | PoolAt _ => ∅
       end.

End Sample.

(** ** engine/chain.go: the chain context as a node, and its accessors *)

Module ChainNode.
Import Types Engine.

(** An [interface{}] value as [Init] inspects it: a [*types.RuleChain]
    (possibly a nil pointer) or any other value. *)
Inductive Interface :=
| OfRuleChainPtr (p : option RuleChain)
| OfOther (a : Any).

Section Node.
Context {NL : NodeLayer} {CB : Collaborators}.

(** [Config] *)
Definition Config (rc : RuleChainCtx) : Engine.Config := rc.(Engine.config).

(** [Type] *)
Definition Type' (rc : RuleChainCtx) : string := "ruleChain".

(** [New]: panics. *)
Definition New (rc : RuleChainCtx) : Outcome RuleChainCtx := Panic.

(** [IsDebugMode] *)
Definition IsDebugMode (rc : RuleChainCtx) : bool :=
  DebugMode (RuleChain_ rc.(SelfDefinition)).

(** [GetNodeId] *)
Definition GetNodeId (rc : RuleChainCtx) : RuleNodeId := rc.(rc_Id).

(** [Definition] *)
Definition Definition_ (rc : RuleChainCtx) : RuleChain := rc.(SelfDefinition).

(** [Init]: the result is the chain context it leaves and the error it
    returns.  A nil [*types.RuleChain] under [selfDefinition] is
    dereferenced by the build, which panics. *)
Definition Init (ps : PoolStore) (rc : RuleChainCtx)
    (configuration : gmap string Interface) : Outcome (RuleChainCtx * option error) :=
  match configuration !! "selfDefinition" with
  | Some (OfRuleChainPtr p) =>
      match p with
      | None => Panic
      | Some v =>
          match InitRuleChainCtx ps rc.(Engine.config) rc.(Engine.aspects) v with
          | Panic => Panic
          | Ret (inr ruleChainCtx) => Ret (Copy rc ruleChainCtx, None)
          | Ret (inl err) => Ret (rc, Some err)
          end
      end
  | _ => Ret (rc, None)
  end.

End Node.
End ChainNode.

(** ** Further vocabulary *)

Module MoreSpec.
Import Types Engine.

(** The node definition as the build leaves it: an unnamed node at position
    [index] is named [node<index>]. *)
Definition assignId (index : nat) (item : RuleNode) : RuleNode :=
  if String.eqb (node_Id item) "" then
    setNodeId item (defaultNodeIdPrefix +:+ pretty index)
  else item.

(** The id under which the node at position [index] is stored. *)
Definition idOf (index : nat) (item : RuleNode) : RuleNodeId :=
  mkRuleNodeId (node_Id (assignId index item)) NODE.

(** The key a call asks the relation cache for. *)
Definition keyOf (call : RuleNodeId * string) : RelationCache :=
  mkRelationCache call.1 call.2.

(** The reload and destroy hooks are the ones of the aspect list. *)
Definition hooks_in_step {NL : NodeLayer} {CB : Collaborators} (rc : RuleChainCtx) : Prop :=
  (reloadAspects rc, destroyAspects rc) = GetEngineAspects (Engine.aspects rc).

End MoreSpec.

(** ** More sample chains *)

Module MoreSample.
Import Types Engine Sample Dsl.

(** Two unnamed nodes and a connection between the ids they are given. *)
Definition unnamed : RuleNode := mkRuleNode "" "jsFilter" "" false ∅.

Definition unnamedChain : RuleChain :=
  chainOf 0 [unnamed; unnamed] [mkNodeConnection "node0" "node1" "Success"] [] None.

Definition unnamedCtx : RuleChainCtx :=
  Eval vm_compute in
    builtOr (InitRuleChainCtx (CB := collaborators) pools cfg [2; 3]%nat unnamedChain).

(** Two nodes under the id [a], told apart by their names. *)
Definition firstA : RuleNode := mkRuleNode "a" "jsFilter" "first" false ∅.
Definition secondA : RuleNode := mkRuleNode "a" "jsFilter" "second" false ∅.

Definition dupChain : RuleChain := chainOf 0 [firstA; secondA] [] [] None.

Definition dupCtx : RuleChainCtx :=
  Eval vm_compute in
    builtOr (InitRuleChainCtx (CB := collaborators) pools cfg [2; 3]%nat dupChain).

(** The second node has no component type, which the builder rejects; so
    has the third. *)
Definition untyped (id : string) : RuleNode := mkRuleNode id "" id false ∅.

Definition badChain : RuleChain :=
  chainOf (-1) [node "a"; untyped "b"; untyped "c"] [] [] None.

(** The three-node chain built with aspects 2 and 3: what the sample parser
    returns for the document [fan] when asked by a context with those
    aspects. *)
Definition fanCtx23 : RuleChainCtx :=
  Eval vm_compute in
    builtOr (InitRuleChainCtx (CB := collaborators) pools cfg [2; 3]%nat fanChain).

(** A toy Unicode table with one letter outside ASCII: U+0130, the capital
    I with a dot, bytes C4 B0 in UTF-8, whose lower case is i.  The letters
    of ASCII are lowered and every other byte is kept. *)
Fixpoint sampleUnicodeLower (s : string) : string :=
  match s with
  | EmptyString => EmptyString
  | String c s' =>
      match s' with
      | String d rest =>
          if (nat_of_ascii c =? 196)%nat && (nat_of_ascii d =? 176)%nat
          then String "i" (sampleUnicodeLower rest)
          else String (lowerByte c) (sampleUnicodeLower s')
      | EmptyString => String (lowerByte c) EmptyString
      end
  end.

(** Toy scanners: a script holds the variable it starts with, written
    [vars.x]; any other field holds the variable it starts with, written
    in braces. *)
#[global] Instance scanners : StrScanners := {|
  str_ParseVars s :=
    if String.prefix "vars." s
    then [String.substring 5 (String.length s - 5) s] else [];
  str_ParseVarsWithBraces s :=
    if String.prefix "${vars." s
    then [String.substring 7 (String.length s - 8) s] else [];
  unicode_ToLower := sampleUnicodeLower
|}.

Definition scriptNode : RuleNode :=
  mkRuleNode "s1" "jsFilter" "" false {[ "jsScript" := AnyString "vars.limit" ]}.

Definition restNode : RuleNode :=
  mkRuleNode "r1" "restApiCall" "" false
    {[ "url" := AnyString "${vars.host}"; "retries" := AnyInt 3 ]}.

(** A field named scr, U+0130, pt. *)
Definition dottedScript : string :=
  "scr" +:+ String (ascii_of_nat 196) (String (ascii_of_nat 176) "pt").

Definition dottedNode : RuleNode :=
  mkRuleNode "d1" "jsTransform" "" false
    {[ dottedScript := AnyString "vars.rate"; "SCRIPT" := AnyString "vars.step" ]}.

End MoreSample.

(** * Properties of the chain context *)

Module ChainProps.
Import Types Engine ChainSpec.

(** Addresses are naturals. *)
Ltac addr_lia := unfold Heap, Addr in *; lia.

Section Resolution.
Context {NL : NodeLayer}.

(** [GetNodeById] finds exactly the resolvable targets. *)
Lemma GetNodeById_resolve (ps : PoolStore) (rc : RuleChainCtx) (id : RuleNodeId) :
  GetNodeById ps rc id =
  match resolve ps rc id with
  | Some n => (n, true)
  | None => (NilNodeCtx, false)
  end.
Proof.
  unfold GetNodeById, resolve.
  destruct (Type_ id).
  - by destruct (nodes rc !! id).
  - destruct (ps (GetRuleChainPool rc) !! Id id) as [e|]; simpl; [|done].
    by destruct (RootRuleChainCtx e).
Qed.

Lemma built_step (h : Heap) (s : Slice NodeCtx) (c : NodeCtx) (succ : list NodeCtx) :
  built (S h) (Some (mkSlice h (slice_elems s ++ [c]))) succ = built h s (c :: succ).
Proof.
  unfold Heap, Addr in *.
  unfold built. destruct succ as [|c' succ']; cbn [length slice_elems elems].
  - do 2 f_equal. addr_lia.
  - rewrite <- app_assoc. cbn [app]. do 2 f_equal. addr_lia.
Qed.

Lemma nextNodes_fold ps rc l rels :
  ∀ h s b,
    fold_left (nextNodesStep ps rc l) rels (h, s, b) =
    ((h + length (successors ps rc (labelled l rels)))%nat,
     built h s (successors ps rc (labelled l rels)),
     b || nonempty (successors ps rc (labelled l rels))).
Proof.
  unfold Heap, Addr.
  induction rels as [|r rels IH]; intros h s b.
  - cbn. by rewrite Nat.add_0_r, orb_false_r.
  - cbn [fold_left]. unfold nextNodesStep at 2.
    unfold labelled. rewrite filter_cons. fold (labelled l rels).
    destruct (String.eqb (RelationType r) l) eqn:Hl.
    + rewrite decide_True by done.
      rewrite GetNodeById_resolve. unfold successors at 1 2 3. cbn [omap list_omap].
      fold (successors ps rc (labelled l rels)).
      destruct (resolve ps rc (OutId r)) as [c|] eqn:Hr.
      * unfold append. rewrite IH, built_step. cbn [length nonempty].
        rewrite orb_true_r. do 2 f_equal. addr_lia.
      * by rewrite IH.
    + rewrite decide_False by done. by rewrite IH.
Qed.

(** A cache hit returns the cached header and leaves the state alone. *)
Lemma GetNextNodes_hit ps f l rc h s :
  rc.(relationCache) !! mkRelationCache f l = Some s →
  GetNextNodes ps f l (rc, h) = ((s, notNil s), (rc, h)).
Proof. intros Hc. unfold GetNextNodes. by rewrite Hc. Qed.

(** A cache miss resolves from the routes, stores the list and returns it. *)
Lemma GetNextNodes_miss ps f l rc h :
  rc.(relationCache) !! mkRelationCache f l = None →
  GetNextNodes ps f l (rc, h) =
  let succ := resolution ps rc f l in
  let s := built h None succ in
  ((s, nonempty succ),
   (with_relationCache rc (<[mkRelationCache f l := s]> rc.(relationCache)),
    (h + length succ)%nat)).
Proof.
  intros Hc. unfold GetNextNodes. rewrite Hc.
  unfold resolution, GetNodeRoutes.
  destruct (nodeRoutes rc !! f) as [rels|]; simpl.
  - by rewrite nextNodes_fold.
  - cbn. by rewrite Nat.add_0_r.
Qed.

Lemma built_elems h succ : slice_elems (built h None succ) = succ.
Proof. by destruct succ. Qed.

Lemma built_notNil h succ : notNil (built h None succ) = nonempty succ.
Proof. by destruct succ. Qed.

Lemma nonempty_len {A} (l : list A) : nonempty l = bool_decide (0 < length l)%nat.
Proof. destruct l; cbn [nonempty length]; [done|]. symmetry. apply bool_decide_eq_true. lia. Qed.

(** [GetNextNodes] writes nothing but the cache. *)
Lemma GetNextNodes_frame ps f l rc h :
  let rc' := (GetNextNodes ps f l (rc, h)).2.1 in
  nodes rc' = nodes rc ∧ nodeRoutes rc' = nodeRoutes rc
  ∧ ruleChainPool rc' = ruleChainPool rc.
Proof.
  destruct (rc.(relationCache) !! mkRelationCache f l) as [s|] eqn:Hc.
  - by rewrite (GetNextNodes_hit _ _ _ _ _ _ Hc).
  - by rewrite (GetNextNodes_miss _ _ _ _ _ Hc).
Qed.

Lemma resolution_frame ps rc rc' f l :
  nodes rc' = nodes rc → nodeRoutes rc' = nodeRoutes rc →
  ruleChainPool rc' = ruleChainPool rc →
  resolution ps rc' f l = resolution ps rc f l.
Proof.
  intros Hn Hr Hp. unfold resolution, GetNodeRoutes, successors.
  rewrite Hr. apply list_omap_ext, Forall_Forall2_diag, Forall_forall.
  intros r _. unfold resolve, GetRuleChainPool. by rewrite Hn, Hp.
Qed.

End Resolution.

(** ** What a build establishes *)

Section Build.
Context {NL : NodeLayer} {CB : Collaborators}.

Lemma loadNodes_frame config items :
  ∀ index rc rc',
    loadNodes config index items rc = inr rc' → unchanged_by_loading rc rc'.
Proof.
  induction items as [|item items IH]; intros index rc rc' Hl; cbn in Hl.
  - injection Hl as <-. by repeat split.
  - destruct (InitRuleNodeCtx _ _ _) as [ruleNodeCtx [err|]]; [done|].
    apply IH in Hl. unfold unchanged_by_loading in *. cbn in Hl.
    rewrite length_insert in Hl. exact Hl.
Qed.

Lemma addRoutes_lookup (rels : list RuleNodeRelation) :
  ∀ (routes : gmap RuleNodeId (list RuleNodeRelation)) (f : RuleNodeId),
    fold_left addRoute rels routes !! f =
    match filter (λ r, InId r = f) rels with
    | [] => routes !! f
    | fs => Some (default [] (routes !! f) ++ fs)
    end.
Proof.
  induction rels as [|r rels IH]; intros routes f; [done|].
  cbn [fold_left]. rewrite IH, filter_cons. unfold addRoute.
  destruct (decide (InId r = f)) as [->|Hne].
  - rewrite lookup_insert_eq.
    destruct (filter _ rels) as [|r' fs]; destruct (routes !! _); cbn;
      try done; by rewrite <- app_assoc.
  - by rewrite lookup_insert_ne.
Qed.

Lemma loadConnections_fold conns routes :
  loadConnections conns routes = fold_left addRoute (map nodeRelation conns) routes.
Proof.
  unfold loadConnections. revert routes.
  induction conns as [|c conns IH]; intros routes; [done|]. cbn. apply IH.
Qed.

Lemma loadRuleChainConnections_fold conns routes :
  loadRuleChainConnections conns routes
  = fold_left addRoute (map chainRelation conns) routes.
Proof.
  unfold loadRuleChainConnections. revert routes.
  induction conns as [|c conns IH]; intros routes; [done|]. cbn. apply IH.
Qed.

Lemma newRuleChainCtx_fields config aspects def :
  let rc := newRuleChainCtx config aspects def in
  nodeRoutes rc = ∅ ∧ relationCache rc = ∅ ∧ nodes rc = ∅
  ∧ isEmpty rc = false ∧ ruleChainPool rc = None
  ∧ length (nodeIds rc) = length (Nodes (Metadata def))
  ∧ SelfDefinition rc = def ∧ Engine.config rc = config
  ∧ decryptSecrets rc =
    match chain_Configuration (RuleChain_ def) with
    | Some configuration =>
        decryptSecret (ToStringMapString (cfg_get configuration Secrets))
                      (SecretKey config)
    | None => ∅
    end.
Proof.
  unfold newRuleChainCtx.
  destruct (chain_Configuration (RuleChain_ def)); cbn;
    rewrite length_replicate; by repeat split.
Qed.

(** The stages of a successful build. *)
Lemma InitRuleChainCtx_stages ps config aspects def rc :
  InitRuleChainCtx ps config aspects def = Ret (inr rc) →
  ∃ loaded rooted,
    loadNodes config 0 (Nodes (Metadata def)) (newRuleChainCtx config aspects def)
    = inr loaded
    ∧ initRoot ps config
        (with_nodeRoutes loaded (fold_left addRoute (relations_of def) ∅))
      = Ret rooted
    ∧ rc = with_engineAspects rooted (Engine.aspects rooted)
             (GetEngineAspects aspects).1 (GetEngineAspects aspects).2.
Proof.
  unfold InitRuleChainCtx. intros Hb.
  destruct (loadNodes _ _ _ _) as [err|loaded] eqn:Hl; [done|].
  assert (Hroutes :
    loadRuleChainConnections (RuleChainConnections (Metadata def))
      (loadConnections (Connections (Metadata def)) (nodeRoutes loaded))
    = fold_left addRoute (relations_of def) ∅).
  { apply loadNodes_frame in Hl as (Hr & _). rewrite Hr.
    destruct (newRuleChainCtx_fields config aspects def) as (-> & _).
    unfold relations_of.
    rewrite loadRuleChainConnections_fold, loadConnections_fold.
    symmetry. apply fold_left_app. }
  cbv zeta in Hb. rewrite Hroutes in Hb.
  destruct (initRoot _ _ _) as [rooted|] eqn:Hroot; [|done].
  exists loaded, rooted. split; [done|]. split; [done|].
  destruct (GetEngineAspects aspects). by injection Hb as <-.
Qed.

Lemma initRoot_frame ps config rc rc' :
  initRoot ps config rc = Ret rc' →
  nodes rc' = nodes rc ∧ nodeRoutes rc' = nodeRoutes rc
  ∧ relationCache rc' = relationCache rc ∧ ruleChainPool rc' = ruleChainPool rc
  ∧ nodeIds rc' = nodeIds rc ∧ SelfDefinition rc' = SelfDefinition rc
  ∧ decryptSecrets rc' = decryptSecrets rc.
Proof.
  unfold initRoot. intros Hr.
  destruct (GetFirstNode ps rc) as [[firstNode [|]]|]; [| |done].
  - by injection Hr as <-.
  - destruct (InitRuleNodeCtx _ _ _). by injection Hr as <-.
Qed.

(** A built context has an empty relation cache. *)
Lemma built_cache_empty ps config aspects def rc :
  InitRuleChainCtx ps config aspects def = Ret (inr rc) → relationCache rc = ∅.
Proof.
  intros (loaded & rooted & Hl & Hr & ->)%InitRuleChainCtx_stages.
  apply initRoot_frame in Hr as (_ & _ & Hc & _).
  apply loadNodes_frame in Hl as (_ & Hc' & _).
  cbn. rewrite Hc. cbn. rewrite Hc'. apply newRuleChainCtx_fields.
Qed.

(** The routes of a built context, per source node: the relations of the
    definition that leave it, in definition order. *)
Lemma built_routes ps config aspects def rc f :
  InitRuleChainCtx ps config aspects def = Ret (inr rc) →
  (GetNodeRoutes rc f).1 = filter (λ r, InId r = f) (relations_of def).
Proof.
  intros (loaded & rooted & Hl & Hr & ->)%InitRuleChainCtx_stages.
  apply initRoot_frame in Hr as (_ & Hroutes & _).
  unfold GetNodeRoutes. cbn. rewrite Hroutes. cbn.
  rewrite addRoutes_lookup, lookup_empty.
  by destruct (filter _ _).
Qed.

Lemma labelled_from (rels : list RuleNodeRelation) f l :
  labelled l (filter (λ r, InId r = f) rels)
  = filter (λ r, matching f l r = true) rels.
Proof.
  unfold labelled, matching.
  induction rels as [|r rels IH]; [done|].
  rewrite !filter_cons.
  destruct (decide (InId r = f)) as [Hf|Hf].
  - rewrite filter_cons, (bool_decide_eq_true_2 _ Hf), IH. cbn [andb].
    by destruct (decide _).
  - rewrite (bool_decide_eq_false_2 _ Hf), IH. cbn [andb].
    by rewrite decide_False.
Qed.

(** Resolution on a built context, in terms of its definition. *)
Lemma built_resolution ps0 ps config aspects def rc f l :
  InitRuleChainCtx ps0 config aspects def = Ret (inr rc) →
  resolution ps rc f l = successors ps rc (matching_relations def f l).
Proof.
  intros Hb. unfold resolution, matching_relations.
  by rewrite (built_routes _ _ _ _ _ _ Hb), labelled_from.
Qed.

End Build.

(** ** The relation cache across calls *)

Section Cache.
Context {NL : NodeLayer} {CB : Collaborators}.

(** Whatever the path, the boolean says whether the returned list is
    non-nil, and the list is in the cache afterwards. *)
Lemma GetNextNodes_found ps f l st :
  (GetNextNodes ps f l st).1.2 = notNil (GetNextNodes ps f l st).1.1.
Proof.
  destruct st as [rc h].
  destruct (rc.(relationCache) !! mkRelationCache f l) as [s|] eqn:Hc.
  - by rewrite (GetNextNodes_hit _ _ _ _ _ _ Hc).
  - rewrite (GetNextNodes_miss _ _ _ _ _ Hc). cbn. by rewrite built_notNil.
Qed.

Lemma GetNextNodes_cached ps f l st :
  relationCache (GetNextNodes ps f l st).2.1 !! mkRelationCache f l
  = Some (GetNextNodes ps f l st).1.1.
Proof.
  destruct st as [rc h].
  destruct (rc.(relationCache) !! mkRelationCache f l) as [s|] eqn:Hc.
  - by rewrite (GetNextNodes_hit _ _ _ _ _ _ Hc).
  - rewrite (GetNextNodes_miss _ _ _ _ _ Hc). cbn. by rewrite lookup_insert_eq.
Qed.

(** An entry, once cached, stays as it is. *)
Lemma GetNextNodes_keeps ps f l st k s :
  relationCache st.1 !! k = Some s →
  relationCache (GetNextNodes ps f l st).2.1 !! k = Some s.
Proof.
  destruct st as [rc h]. cbn [fst]. intros Hk.
  destruct (rc.(relationCache) !! mkRelationCache f l) as [s'|] eqn:Hc.
  - by rewrite (GetNextNodes_hit _ _ _ _ _ _ Hc).
  - rewrite (GetNextNodes_miss _ _ _ _ _ Hc). cbn.
    rewrite lookup_insert_ne; [done|]. intros <-. congruence.
Qed.

Lemma exec_keeps st op k s :
  isReload op = false →
  relationCache st.1 !! k = Some s → relationCache (exec st op).1 !! k = Some s.
Proof.
  destruct op as [ps f l| | | asp |]; cbn; try done; intros _.
  - apply GetNextNodes_keeps.
  - unfold SetAspects. by destruct (GetEngineAspects asp).
Qed.

Lemma execAll_keeps ops :
  Forall (λ op, isReload op = false) ops →
  ∀ st k s, relationCache st.1 !! k = Some s →
            relationCache (execAll ops st).1 !! k = Some s.
Proof.
  induction 1 as [|op ops Hop _ IH]; intros st k s Hk; [done|].
  cbn. apply IH. by apply exec_keeps.
Qed.

(** A reload leaves an empty cache behind when it swaps, and the cache it
    found when it does not. *)
Lemma ReloadSelf_cache (rc : RuleChainCtx) def :
  relationCache (ReloadSelf rc def).1.2 = ∅
  ∨ relationCache (ReloadSelf rc def).1.2 = relationCache rc.
Proof.
  unfold ReloadSelf.
  destruct (DecodeRuleChain _ _ def) as [e|ctx];
    destruct (runReloadAspects _ _ _ _); [by right|by left].
Qed.

(** No operation stores a non-nil empty list. *)
Lemma GetNextNodes_wf ps f l st :
  cache_wf st.1 → cache_wf (GetNextNodes ps f l st).2.1.
Proof.
  destruct st as [rc h]. cbn [fst]. intros Hwf.
  destruct (rc.(relationCache) !! mkRelationCache f l) as [s'|] eqn:Hc.
  - by rewrite (GetNextNodes_hit _ _ _ _ _ _ Hc).
  - rewrite (GetNextNodes_miss _ _ _ _ _ Hc).
    cbn [fst snd with_relationCache relationCache]. intros k s.
    cbn [fst snd with_relationCache relationCache].
    destruct (decide (mkRelationCache f l = k)) as [<-|Hne].
    + rewrite lookup_insert_eq. intros [= <-].
      unfold len. by rewrite built_notNil, built_elems, nonempty_len.
    + rewrite lookup_insert_ne by done. apply Hwf.
Qed.

Lemma exec_wf st op : cache_wf st.1 → cache_wf (exec st op).1.
Proof.
  destruct op as [ps f l|def| | asp |]; cbn [exec fst]; try done.
  - apply GetNextNodes_wf.
  - intros Hwf k s. destruct (ReloadSelf_cache st.1 def) as [-> | ->].
    + by rewrite lookup_empty.
    + apply Hwf.
  - unfold SetAspects. by destruct (GetEngineAspects asp).
Qed.

Lemma execAll_wf ops : ∀ st, cache_wf st.1 → cache_wf (execAll ops st).1.
Proof.
  induction ops as [|op ops IH]; intros st Hwf; [done|].
  cbn. apply IH. by apply exec_wf.
Qed.

Lemma empty_cache_wf (rc : RuleChainCtx) : relationCache rc = ∅ → cache_wf rc.
Proof. intros He k s. by rewrite He, lookup_empty. Qed.

Lemma empty_cache_consistent ps (rc : RuleChainCtx) :
  relationCache rc = ∅ → cache_consistent ps rc.
Proof. intros He k s. by rewrite He, lookup_empty. Qed.

(** With the pools left alone, the cache stays consistent with
    resolution. *)
Lemma GetNextNodes_consistent ps f l st :
  cache_consistent ps st.1 → cache_consistent ps (GetNextNodes ps f l st).2.1.
Proof.
  destruct st as [rc h]. cbn [fst]. intros Hok.
  destruct (rc.(relationCache) !! mkRelationCache f l) as [s'|] eqn:Hc.
  - by rewrite (GetNextNodes_hit _ _ _ _ _ _ Hc).
  - rewrite (GetNextNodes_miss _ _ _ _ _ Hc).
    cbn [fst snd with_relationCache relationCache]. intros k s.
    cbn [fst snd with_relationCache relationCache].
    rewrite (resolution_frame ps rc (with_relationCache rc _)) by done.
    destruct (decide (mkRelationCache f l = k)) as [<-|Hne].
    + rewrite lookup_insert_eq. intros [= <-]. by rewrite built_elems.
    + rewrite lookup_insert_ne by done. apply Hok.
Qed.

Lemma GetNextNodes_elems ps f l st :
  cache_consistent ps st.1 →
  slice_elems (GetNextNodes ps f l st).1.1 = resolution ps st.1 f l.
Proof.
  destruct st as [rc h]. cbn [fst]. intros Hok.
  destruct (rc.(relationCache) !! mkRelationCache f l) as [s'|] eqn:Hc.
  - rewrite (GetNextNodes_hit _ _ _ _ _ _ Hc). cbn. by apply (Hok _ _ Hc).
  - rewrite (GetNextNodes_miss _ _ _ _ _ Hc). cbn. by rewrite built_elems.
Qed.

Lemma callsOn_invariant ps calls :
  ∀ st, cache_consistent ps st.1 →
    let st' := execAll (callsOn ps calls) st in
    cache_consistent ps st'.1
    ∧ nodes st'.1 = nodes st.1 ∧ nodeRoutes st'.1 = nodeRoutes st.1
    ∧ ruleChainPool st'.1 = ruleChainPool st.1.
Proof.
  induction calls as [|[f l] calls IH]; intros st Hok; [done|].
  cbv zeta.
  change (execAll (callsOn ps ((f, l) :: calls)) st)
    with (execAll (callsOn ps calls) (GetNextNodes ps f l st).2).
  destruct (IH (GetNextNodes ps f l st).2) as (Hok' & Hn & Hr & Hp).
  { by apply GetNextNodes_consistent. }
  split; [exact Hok'|]. rewrite Hn, Hr, Hp.
  destruct st as [rc h]. apply GetNextNodes_frame.
Qed.

(** After any run of calls on a built context, [GetNextNodes] returns the
    successors of the matching relations of the definition. *)
Lemma built_next_nodes ps0 ps config aspects def rc calls h f l :
  InitRuleChainCtx ps0 config aspects def = Ret (inr rc) →
  slice_elems (GetNextNodes ps f l (execAll (callsOn ps calls) (rc, h))).1.1
  = successors ps rc (matching_relations def f l).
Proof.
  intros Hb.
  destruct (callsOn_invariant ps calls (rc, h)) as (Hok & Hn & Hr & Hp).
  { apply empty_cache_consistent. by eapply built_cache_empty. }
  rewrite GetNextNodes_elems by done.
  rewrite (resolution_frame ps rc (execAll _ _).1) by done.
  by eapply built_resolution.
Qed.

End Cache.

(** ** Successor resolution (GetNextNodes) *)

Section Successors.
Context {NL : NodeLayer} {CB : Collaborators}.

Lemma successors_app ps (rc : RuleChainCtx) rels1 rels2 :
  successors ps rc (rels1 ++ rels2) = successors ps rc rels1 ++ successors ps rc rels2.
Proof. apply omap_app. Qed.

Lemma successors_unresolvable ps (rc : RuleChainCtx) r rels :
  resolve ps rc (OutId r) = None →
  successors ps rc (r :: rels) = successors ps rc rels.
Proof. intros Hr. unfold successors. cbn. by rewrite Hr. Qed.

Lemma successors_resolvable ps (rc : RuleChainCtx) r rels t :
  resolve ps rc (OutId r) = Some t →
  successors ps rc (r :: rels) = t :: successors ps rc rels.
Proof. intros Hr. unfold successors. cbn. by rewrite Hr. Qed.

Lemma unresolvable_resolve ps (rc : RuleChainCtx) t :
  unresolvable ps rc t ↔ resolve ps rc t = None.
Proof.
  unfold unresolvable, resolve. destruct (Type_ t); [done|].
  destruct (ps (GetRuleChainPool rc) !! Id t) as [e|]; cbn; [|done].
  destruct (RootRuleChainCtx e); cbn; split; done.
Qed.

(** C1.  On a built chain context, after any run of earlier GetNextNodes
    calls, GetNextNodes(f, l) returns the resolved targets of the relations
    of the definition that leave f with label l, in definition order: the
    list is the successors of the matching relations; the target of the
    i-th matching relation, when resolvable, sits at the position counted
    by the resolvable matching relations before it; and later relations
    land at later positions, so a relation repeated in the definition is
    repeated in the list. *)
Theorem next_nodes_follow_definition_order ps0 ps config aspects def rc :
  InitRuleChainCtx ps0 config aspects def = Ret (inr rc) →
  ∀ calls h f l,
    let ms := matching_relations def f l in
    let out :=
      slice_elems (GetNextNodes ps f l (execAll (callsOn ps calls) (rc, h))).1.1 in
    out = successors ps rc ms
    ∧ (∀ i r t, ms !! i = Some r → resolve ps rc (OutId r) = Some t →
         out !! length (successors ps rc (take i ms)) = Some t)
    ∧ (∀ i j r t, (i < j)%nat → ms !! i = Some r →
         resolve ps rc (OutId r) = Some t →
         (length (successors ps rc (take i ms))
          < length (successors ps rc (take j ms)))%nat).
Proof.
  intros Hb calls h f l ms out.
  assert (Hout : out = successors ps rc ms) by by eapply built_next_nodes.
  clearbody ms out.
  split; [exact Hout|]. split.
  - intros i r t Hi Hr. rewrite Hout.
    transitivity (successors ps rc (take i ms ++ r :: drop (S i) ms)
                    !! length (successors ps rc (take i ms))).
    { by rewrite take_drop_middle. }
    rewrite successors_app, (successors_resolvable _ _ _ _ _ Hr).
    by apply list_lookup_middle.
  - intros i j r t Hij Hi Hr.
    replace j with (S i + (j - S i))%nat by lia.
    rewrite <- take_take_drop, (take_S_r _ _ _ Hi), !successors_app.
    rewrite (successors_resolvable _ _ _ _ _ Hr), !length_app. cbn. lia.
Qed.

(** X22.  On a built chain context, a relation of the definition whose
    target is not found (a NODE-kind id absent from nodes, a CHAIN-kind id
    absent from the sub-chain pool, or one whose engine returns the nil
    interface value as its root chain context) contributes nothing to the
    list GetNextNodes returns: the list is the successors of the relations
    before it followed by the successors of the relations after it, and the
    flag tells whether that list is non-empty.  Looking the target up
    answers (nil, false); nothing is raised: neither GetNodeById nor
    GetNextNodes has a failing outcome. *)
Theorem unresolvable_relation_is_omitted ps0 ps config aspects def rc pre r post :
  InitRuleChainCtx ps0 config aspects def = Ret (inr rc) →
  relations_of def = pre ++ r :: post →
  unresolvable ps rc (OutId r) →
  GetNodeById ps rc (OutId r) = (NilNodeCtx, false)
  ∧ ∀ calls h f l,
      let res := (GetNextNodes ps f l (execAll (callsOn ps calls) (rc, h))).1 in
      let kept :=
        successors ps rc (filter (λ x, matching f l x = true) pre)
        ++ successors ps rc (filter (λ x, matching f l x = true) post) in
      slice_elems res.1 = kept ∧ res.2 = nonempty kept.
Proof.
  intros Hb Hrels Hun. apply unresolvable_resolve in Hun.
  split; [by rewrite GetNodeById_resolve, Hun|].
  intros calls h f l res kept.
  assert (Hres : slice_elems res.1 = kept).
  { unfold res, kept. rewrite (built_next_nodes _ _ _ _ _ _ _ _ _ _ Hb).
    unfold matching_relations. rewrite Hrels, filter_app, filter_cons.
    rewrite successors_app. f_equal.
    destruct (decide _); [|done].
    by apply successors_unresolvable. }
  split; [exact Hres|].
  assert (Hfound : res.2 = notNil res.1) by apply GetNextNodes_found.
  assert (Hwf : cache_wf (GetNextNodes ps f l (execAll (callsOn ps calls) (rc, h))).2.1).
  { apply GetNextNodes_wf, execAll_wf, empty_cache_wf. by eapply built_cache_empty. }
  assert (Hlen : notNil res.1 = bool_decide (0 < len res.1)%nat).
  { apply (Hwf _ _ (GetNextNodes_cached ps f l _)). }
  rewrite Hfound, Hlen, nonempty_len. unfold len. by rewrite Hres.
Qed.

(** C8 (as the code has it).  On a built chain context, take a relation of
    the definition whose target is a CHAIN-kind id that the sub-chain pool
    holds, the engine found there having no root chain context and
    returning it as a nil *RuleChainCtx.  Line 180 compares the interface
    value with nil, which this one is not: GetNodeById answers (the nil
    chain context, true), and GetNextNodes for the source and label of the
    relation returns, after any run of earlier calls, a list in which the
    nil chain context stands at the place of the relation, between the
    successors of the relations before it and of those after it, with
    found = true.  The relation is not omitted. *)
Theorem nil_root_chain_is_returned ps0 ps config aspects def rc pre r post e :
  InitRuleChainCtx ps0 config aspects def = Ret (inr rc) →
  relations_of def = pre ++ r :: post →
  Type_ (OutId r) = CHAIN →
  ps (GetRuleChainPool rc) !! Id (OutId r) = Some e →
  RootRuleChainCtx e = Some None →
  GetNodeById ps rc (OutId r) = (OfRuleChain None, true)
  ∧ ∀ calls h,
      let f := InId r in
      let l := RelationType r in
      let res := (GetNextNodes ps f l (execAll (callsOn ps calls) (rc, h))).1 in
      slice_elems res.1
      = successors ps rc (filter (λ x, matching f l x = true) pre)
        ++ OfRuleChain None
           :: successors ps rc (filter (λ x, matching f l x = true) post)
      ∧ res.2 = true.
Proof.
  intros Hb Hrels Hchain Hpool Hroot.
  assert (Hres : resolve ps rc (OutId r) = Some (OfRuleChain None)).
  { unfold resolve. rewrite Hchain, Hpool. cbn. by rewrite Hroot. }
  split; [by rewrite GetNodeById_resolve, Hres|].
  intros calls h f l res.
  assert (Hm : matching f l r = true).
  { unfold matching, f, l. rewrite bool_decide_eq_true_2 by done.
    apply String.eqb_refl. }
  assert (Helems : slice_elems res.1
                   = successors ps rc (filter (λ x, matching f l x = true) pre)
                     ++ OfRuleChain None
                        :: successors ps rc (filter (λ x, matching f l x = true) post)).
  { unfold res. rewrite (built_next_nodes _ _ _ _ _ _ _ _ _ _ Hb).
    unfold matching_relations. rewrite Hrels, filter_app, filter_cons.
    rewrite decide_True by done.
    by rewrite successors_app, (successors_resolvable _ _ _ _ _ Hres). }
  split; [exact Helems|].
  assert (Hfound : res.2 = notNil res.1) by apply GetNextNodes_found.
  assert (Hwf : cache_wf (GetNextNodes ps f l (execAll (callsOn ps calls) (rc, h))).2.1).
  { apply GetNextNodes_wf, execAll_wf, empty_cache_wf. by eapply built_cache_empty. }
  assert (Hlen : notNil res.1 = bool_decide (0 < len res.1)%nat).
  { apply (Hwf _ _ (GetNextNodes_cached ps f l _)). }
  rewrite Hfound, Hlen. unfold len. rewrite Helems, length_app. cbn [length].
  apply bool_decide_eq_true. lia.
Qed.

(** C2.  Take a built chain context, any operations before, two calls
    GetNextNodes(f, l), and between the two any operations other than a
    whole-chain reload, the pools being whatever they are at each call.  The
    second call finds the list of the first in the cache and returns that
    very slice (same backing array, same contents); its flag is the non-nil
    test of the cache-hit path, which equals len(list) > 0 and the flag the
    first call returned. *)
Theorem repeated_next_nodes_identical ps0 config aspects def rc0 :
  InitRuleChainCtx ps0 config aspects def = Ret (inr rc0) →
  ∀ before between h0 ps1 ps2 f l,
    Forall (λ op, isReload op = false) between →
    let r1 := GetNextNodes ps1 f l (execAll before (rc0, h0)) in
    let st2 := execAll between r1.2 in
    let r2 := GetNextNodes ps2 f l st2 in
    relationCache st2.1 !! mkRelationCache f l = Some r1.1.1
    ∧ r2.1.1 = r1.1.1
    ∧ r2.1.2 = notNil r2.1.1
    ∧ r2.1.2 = bool_decide (0 < len r2.1.1)%nat
    ∧ r2.1.2 = r1.1.2
    ∧ r2.2 = st2.
Proof.
  intros Hb before between h0 ps1 ps2 f l Hbetween r1 st2 r2.
  assert (Hc : relationCache st2.1 !! mkRelationCache f l = Some r1.1.1).
  { apply execAll_keeps; [done|]. apply GetNextNodes_cached. }
  assert (Hwf : cache_wf st2.1).
  { apply execAll_wf, GetNextNodes_wf, execAll_wf, empty_cache_wf.
    by eapply built_cache_empty. }
  assert (Hr2 : r2 = ((r1.1.1, notNil r1.1.1), st2)).
  { unfold r2. destruct st2 as [rc2 h2]. by apply GetNextNodes_hit. }
  rewrite Hr2. cbn [fst snd].
  repeat split; try done.
  - by apply Hwf in Hc.
  - unfold r1. by rewrite GetNextNodes_found.
Qed.

End Successors.

(** ** Index lookups and the empty chain *)

Section FirstNode.
Context {NL : NodeLayer} {CB : Collaborators}.

(** At or beyond the end of [nodeIds] the lookup answers with the
    placeholder and [false]. *)
Lemma GetNodeByIndex_beyond ps (rc : RuleChainCtx) (index : Z) :
  (Z.of_nat (length (nodeIds rc)) ≤ index)%Z →
  GetNodeByIndex ps rc index = Ret (OfRuleNode emptyRuleNodeCtx, false).
Proof.
  intros Hi. unfold GetNodeByIndex.
  by rewrite (proj2 (Z.geb_le _ _) Hi).
Qed.

(** Below zero the guard of line 193 lets the index through. *)
Lemma GetNodeByIndex_below ps (rc : RuleChainCtx) (index : Z) :
  (index < 0)%Z → GetNodeByIndex ps rc index = Panic.
Proof.
  intros Hi. unfold GetNodeByIndex.
  destruct (index >=? _)%Z eqn:Hge.
  - apply Z.geb_le in Hge. lia.
  - by rewrite (proj2 (Z.ltb_lt _ _) Hi).
Qed.

(** C6 (as the code has it).  GetNodeByIndex checks the upper bound only:
    with a negative index it indexes nodeIds out of range and panics, where
    the claim has it return the placeholder and false. *)
Theorem GetNodeByIndex_negative_panics ps (rc : RuleChainCtx) (index : Z) :
  (index < 0)%Z → GetNodeByIndex ps rc index = Panic.
Proof. apply GetNodeByIndex_below. Qed.

(** A definition whose first-node index is negative cannot be built: the
    build panics once its nodes are loaded. *)
Lemma InitRuleChainCtx_negative_first ps config aspects def :
  (FirstNodeIndex (Metadata def) < 0)%Z →
  ∀ rc, InitRuleChainCtx ps config aspects def ≠ Ret (inr rc).
Proof.
  intros Hneg rc (loaded & rooted & Hl & Hr & _)%InitRuleChainCtx_stages.
  apply loadNodes_frame in Hl as (_ & _ & _ & _ & _ & _ & _ & _ & Hidx).
  destruct (newRuleChainCtx_fields config aspects def)
    as (_ & _ & _ & _ & _ & _ & Hdef & _).
  rewrite Hdef in Hidx.
  unfold initRoot, GetFirstNode in Hr. cbn [SelfDefinition with_nodeRoutes] in Hr.
  rewrite Hidx, GetNodeByIndex_below in Hr by done. done.
Qed.

(** C5, as amended.  For every built chain context whose definition has
    zero nodes or whose firstNodeIndex is out of range, isEmpty is true and
    the root rule context points to a node context synthesized from the
    empty node definition; GetFirstNode, however, returns the placeholder
    node context with found = false (the synthesized node is reachable
    through the root rule context only). *)
Theorem empty_chain_first_node ps0 ps config aspects def rc :
  InitRuleChainCtx ps0 config aspects def = Ret (inr rc) →
  Nodes (Metadata def) = []
  ∨ (FirstNodeIndex (Metadata def) < 0)%Z
  ∨ (Z.of_nat (length (Nodes (Metadata def))) ≤ FirstNodeIndex (Metadata def))%Z →
  isEmpty rc = true
  ∧ (∃ underConstruction,
       rootRuleContext rc =
       Some (NewRuleContext config
               (OfRuleNode (InitRuleNodeCtx config underConstruction emptyRuleNode).1)
               (Pool config)))
  ∧ GetFirstNode ps rc = Ret (OfRuleNode emptyRuleNodeCtx, false).
Proof.
  intros Hb Hrange.
  assert (Hbeyond :
    (Z.of_nat (length (Nodes (Metadata def))) ≤ FirstNodeIndex (Metadata def))%Z).
  { destruct (Z.lt_ge_cases (FirstNodeIndex (Metadata def)) 0) as [Hneg|Hpos].
    - by destruct (InitRuleChainCtx_negative_first ps0 config aspects def Hneg rc).
    - destruct Hrange as [Hnil|[Hneg|Hge]]; [rewrite Hnil; cbn|..]; lia. }
  clear Hrange.
  apply InitRuleChainCtx_stages in Hb as (loaded & rooted & Hl & Hr & ->).
  apply loadNodes_frame in Hl as (_ & _ & _ & _ & _ & _ & Hcfg & Hlen & Hidx).
  destruct (newRuleChainCtx_fields config aspects def)
    as (_ & _ & _ & _ & _ & Hlen0 & Hdef & Hcfg0 & _).
  rewrite Hdef in Hidx. rewrite Hlen0 in Hlen. rewrite Hcfg0 in Hcfg.
  set (routed := with_nodeRoutes loaded _) in Hr.
  assert (Hfirst : ∀ ps', GetFirstNode ps' routed = Ret (OfRuleNode emptyRuleNodeCtx, false)).
  { intros ps'. unfold GetFirstNode. cbn [routed SelfDefinition with_nodeRoutes].
    rewrite Hidx. apply GetNodeByIndex_beyond.
    cbn [routed nodeIds with_nodeRoutes]. by rewrite Hlen. }
  unfold initRoot in Hr. rewrite Hfirst in Hr.
  destruct (InitRuleNodeCtx config routed emptyRuleNode) as [ruleNodeCtx e] eqn:Hinit.
  injection Hr as <-.
  split; [done|]. split.
  - exists routed. cbn. by rewrite Hinit, Hcfg.
  - apply (Hfirst ps).
Qed.

End FirstNode.

(** ** Reload *)

Section Reload.
Context {NL : NodeLayer} {CB : Collaborators}.

(** [Copy] takes these fifteen fields from the new context and empties the
    relation cache. *)
Lemma Copy_fields (rc newCtx : RuleChainCtx) :
  let rc' := Copy rc newCtx in
  rc_Id rc' = rc_Id newCtx
  ∧ Engine.config rc' = Engine.config newCtx
  ∧ initialized rc' = initialized newCtx
  ∧ componentsRegistry rc' = componentsRegistry newCtx
  ∧ SelfDefinition rc' = SelfDefinition newCtx
  ∧ nodeIds rc' = nodeIds newCtx
  ∧ nodes rc' = nodes newCtx
  ∧ nodeRoutes rc' = nodeRoutes newCtx
  ∧ rootRuleContext rc' = rootRuleContext newCtx
  ∧ ruleChainPool rc' = ruleChainPool newCtx
  ∧ Engine.aspects rc' = Engine.aspects newCtx
  ∧ reloadAspects rc' = reloadAspects newCtx
  ∧ destroyAspects rc' = destroyAspects newCtx
  ∧ vars rc' = vars newCtx
  ∧ decryptSecrets rc' = decryptSecrets newCtx
  ∧ relationCache rc' = ∅.
Proof. by repeat split. Qed.

(** It does not take [isEmpty]: the flag of the old context stays. *)
Lemma Copy_keeps_isEmpty (rc newCtx : RuleChainCtx) :
  isEmpty (Copy rc newCtx) = isEmpty rc.
Proof. reflexivity. Qed.

(** So the flag survives every reload, whatever the new definition. *)
Lemma ReloadSelf_keeps_isEmpty (rc : RuleChainCtx) (def : string) :
  isEmpty (ReloadSelf rc def).1.2 = isEmpty rc.
Proof.
  unfold ReloadSelf.
  destruct (DecodeRuleChain _ _ def) as [e|ctx];
    by destruct (runReloadAspects _ _ _ _).
Qed.

(** The hook loop when no hook objects: every hook is called, and the
    error passed in is returned. *)
Lemma runReloadAspects_all aops (rc : RuleChainCtx) node err :
  (∀ aop, aop ∈ aops → OnReload aop rc node err = None) →
  runReloadAspects aops rc node err
  = (map (λ aop, EvOnReload aop rc node err) aops, err).
Proof.
  induction aops as [|aop aops IH]; intros Hnil; [done|].
  cbn. rewrite Hnil by apply list_elem_of_here.
  rewrite IH; [done|]. intros a Ha. apply Hnil. by apply list_elem_of_further.
Qed.

(** The hook loop when a hook objects: the hooks up to and including the
    first such one are called, and its error is returned. *)
Lemma runReloadAspects_abort pre aop post (rc : RuleChainCtx) node err e :
  (∀ a, a ∈ pre → OnReload a rc node err = None) →
  OnReload aop rc node err = Some e →
  runReloadAspects (pre ++ aop :: post) rc node err
  = (map (λ aop, EvOnReload aop rc node err) (pre ++ [aop]), Some e).
Proof.
  induction pre as [|a pre IH]; intros Hnil He.
  - cbn. by rewrite He.
  - cbn. rewrite Hnil by apply list_elem_of_here.
    rewrite IH; [done| |done]. intros a' Ha'. apply Hnil. by apply list_elem_of_further.
Qed.

(** Every event of the hook loop is a hook call with the arguments and the
    error the loop was given. *)
Lemma runReloadAspects_events aops (rc : RuleChainCtx) node err :
  Forall (λ ev, ∃ aop, aop ∈ aops ∧ ev = EvOnReload aop rc node err)
         (runReloadAspects aops rc node err).1.
Proof.
  induction aops as [|aop aops IH]; [by constructor|].
  cbn. destruct (OnReload aop rc node err).
  - constructor; [|by constructor]. exists aop. split; [apply list_elem_of_here|done].
  - destruct (runReloadAspects aops rc node err) as [evs r]. cbn in *.
    constructor.
    + exists aop. split; [apply list_elem_of_here|done].
    + eapply Forall_impl; [exact IH|]. intros ev (a & Ha & ->).
      exists a. split; [by apply list_elem_of_further|done].
Qed.

(** C4.  Let this be the chain context after the decoding step of
    ReloadSelf: the context swapped to the freshly decoded one, after
    Destroy, when decoding succeeded, and the unchanged context when it
    failed.  (1) If no reload hook of this returns an error, each of them is
    called in order with (this, this, err), err being the decode error or
    nil, and ReloadSelf returns err.  (2) If some hook returns an error,
    the hooks before the first such one and that one are called with (this,
    this, err), the later ones are not, and ReloadSelf returns that hook's
    error.  (3) On a decode failure the context ReloadSelf leaves is the one
    it was given, and every call it makes is a reload-hook call: nothing is
    destroyed. *)
Theorem ReloadSelf_runs_reload_hooks (rc : RuleChainCtx) (def : string) :
  let decoded := DecodeRuleChain rc.(Engine.config) rc.(Engine.aspects) def in
  let err := decodeError decoded in
  let this := match decoded with inr ctx => Copy rc ctx | inl _ => rc end in
  let before := match decoded with inr _ => Destroy rc | inl _ => [] end in
  ((∀ aop, aop ∈ reloadAspects this → OnReload aop this ReloadedSelf err = None) →
   ReloadSelf rc def
   = (before ++ map (selfReloadCall this err) (reloadAspects this), this, err))
  ∧ (∀ pre aop post e,
       reloadAspects this = pre ++ aop :: post →
       (∀ a, a ∈ pre → OnReload a this ReloadedSelf err = None) →
       OnReload aop this ReloadedSelf err = Some e →
       ReloadSelf rc def
       = (before ++ map (selfReloadCall this err) (pre ++ [aop]), this, Some e))
  ∧ (∀ e, decoded = inl e →
       (ReloadSelf rc def).1.2 = rc
       ∧ Forall (λ ev, ∃ aop, aop ∈ reloadAspects rc
                              ∧ ev = EvOnReload aop rc ReloadedSelf (Some e))
                (ReloadSelf rc def).1.1).
Proof.
  intros decoded err this before.
  assert (Hunfold : ReloadSelf rc def =
    let '(hookEvs, r) := runReloadAspects (reloadAspects this) this ReloadedSelf err in
    (before ++ hookEvs, this, r)).
  { unfold ReloadSelf, this, before, err. fold decoded. by destruct decoded. }
  split; [|split].
  - intros Hnil. by rewrite Hunfold, runReloadAspects_all.
  - intros pre aop post e Hhooks Hnil He.
    by rewrite Hunfold, Hhooks, (runReloadAspects_abort _ _ _ _ _ _ e).
  - intros e He. rewrite Hunfold. clear Hunfold.
    unfold this, before, err. rewrite He. cbn [decodeError].
    pose proof (runReloadAspects_events (reloadAspects rc) rc ReloadedSelf (Some e)) as Hev.
    destruct (runReloadAspects _ _ _ _) as [evs r].
    cbn [fst snd app] in *. by split.
Qed.

End Reload.

(** ** Secrets *)

Section Secrets.
Context {NL : NodeLayer} {CB : Collaborators}.

Lemma decryptEntry_lookup secretKey result k v k' :
  decryptEntry secretKey result (k, v) !! k'
  = if decide (k = k') then Some (plainOrVerbatim secretKey v) else result !! k'.
Proof.
  unfold decryptEntry, plainOrVerbatim.
  destruct (aes_Decrypt v secretKey) as [plaintext [e|]];
    by rewrite lookup_insert.
Qed.

(** The loop of [decryptSecret] over entries with distinct keys. *)
Lemma decryptSecret_loop secretKey (order : list (string * string)) :
  NoDup order.*1 →
  ∀ result k,
    fold_left (decryptEntry secretKey) order result !! k
    = match list_to_map (M := gmap string string) order !! k with
      | Some v => Some (plainOrVerbatim secretKey v)
      | None => result !! k
      end.
Proof.
  induction order as [|[k0 v0] order IH]; intros Hnd result k; [done|].
  apply NoDup_cons in Hnd as [Hk0 Hnd]. cbn [fold_left].
  rewrite IH, decryptEntry_lookup, list_to_map_cons, lookup_insert by done.
  destruct (decide (k0 = k)) as [<-|Hne]; [|done].
  by rewrite (not_elem_of_list_to_map_1 _ _ Hk0).
Qed.

(** Whatever order the iteration over the input map takes, every entry is
    kept, with its plaintext when it decrypts and verbatim when it does
    not. *)
Lemma decryptSecret_in_lookup (inputMap : gmap string string) order secretKey k :
  order ≡ₚ map_to_list inputMap →
  decryptSecret_in order secretKey !! k
  = plainOrVerbatim secretKey <$> inputMap !! k.
Proof.
  intros Hperm. unfold decryptSecret_in.
  assert (Hnd : NoDup order.*1).
  { rewrite Hperm. apply NoDup_fst_map_to_list. }
  rewrite decryptSecret_loop by done.
  rewrite (list_to_map_proper _ _ Hnd Hperm), list_to_map_to_list, lookup_empty.
  by destruct (inputMap !! k).
Qed.

Lemma decryptSecret_lookup (inputMap : gmap string string) secretKey k :
  decryptSecret inputMap secretKey !! k
  = plainOrVerbatim secretKey <$> inputMap !! k.
Proof. by apply decryptSecret_in_lookup. Qed.

(** A build fails with an error only when the node builder does. *)
Lemma loadNodes_error config items :
  ∀ index rc err,
    loadNodes config index items rc = inl err →
    ∃ underConstruction item ruleNodeCtx,
      InitRuleNodeCtx config underConstruction item = (ruleNodeCtx, Some err).
Proof.
  induction items as [|item items IH]; intros index rc err Hl; cbn in Hl; [done|].
  destruct (InitRuleNodeCtx _ _ _) as [ruleNodeCtx [e|]] eqn:Hinit.
  - injection Hl as ->. eauto.
  - by eapply IH.
Qed.

(** C7.  Let the configuration of the definition give the secrets map
    (coerced by ToStringMapString).  In a built chain context the stored
    secrets have exactly the keys of that map; a key whose value decrypts
    holds the plaintext and a key whose value does not decrypt holds the
    value verbatim; this is so for whatever order the map is iterated in.
    And a build that fails fails with an error of the node builder:
    decryption never makes it fail. *)
Theorem secrets_decrypted_or_verbatim ps config aspects def configuration :
  chain_Configuration (RuleChain_ def) = Some configuration →
  let secrets := ToStringMapString (cfg_get configuration Secrets) in
  (∀ rc, InitRuleChainCtx ps config aspects def = Ret (inr rc) →
     ∀ key,
       decryptSecrets rc !! key
       = match secrets !! key with
         | Some value =>
             match aes_Decrypt value (SecretKey config) with
             | (plaintext, None) => Some plaintext
             | (_, Some _) => Some value
             end
         | None => None
         end)
  ∧ (∀ order, order ≡ₚ map_to_list secrets →
       decryptSecret_in order (SecretKey config) = decryptSecret secrets (SecretKey config))
  ∧ (∀ err, InitRuleChainCtx ps config aspects def = Ret (inl err) →
       ∃ underConstruction item ruleNodeCtx,
         InitRuleNodeCtx config underConstruction item = (ruleNodeCtx, Some err)).
Proof.
  intros Hcfg secrets. split; [|split].
  - intros rc (loaded & rooted & Hl & Hr & ->)%InitRuleChainCtx_stages key.
    apply initRoot_frame in Hr as (_ & _ & _ & _ & _ & _ & Hs).
    apply loadNodes_frame in Hl as (_ & _ & _ & _ & Hs' & _).
    destruct (newRuleChainCtx_fields config aspects def)
      as (_ & _ & _ & _ & _ & _ & _ & _ & Hs0).
    rewrite Hcfg in Hs0.
    cbn [decryptSecrets with_engineAspects]. rewrite Hs.
    cbn [decryptSecrets with_nodeRoutes]. rewrite Hs', Hs0.
    rewrite decryptSecret_lookup. fold secrets. unfold plainOrVerbatim.
    destruct (secrets !! key) as [value|]; cbn; [|done].
    by destruct (aes_Decrypt value (SecretKey config)) as [plaintext [e|]].
  - intros order Hperm. apply map_eq. intros k.
    by rewrite decryptSecret_lookup, (decryptSecret_in_lookup secrets).
  - intros err Hb. unfold InitRuleChainCtx in Hb.
    destruct (loadNodes _ _ _ _) as [e|loaded] eqn:Hl.
    + injection Hb as ->. by eapply loadNodes_error.
    + cbv zeta in Hb. destruct (initRoot _ _ _); [|done].
      by destruct (GetEngineAspects aspects).
Qed.

End Secrets.
End ChainProps.

(** * Properties of the builtin processor registry *)

Module ProcessorProps.
Import Processor.

Section Registry.
Context {P : Type}.
Implicit Types (b : builtins P) (p : Process P) (m : gmap string (Process P)).

Lemma deletes_lookup (names : list string) :
  ∀ m name,
    fold_left (λ m n, delete n m) names m !! name
    = if decide (name ∈ names) then None else m !! name.
Proof.
  induction names as [|n names IH]; intros m name.
  - cbn. by rewrite decide_False by apply not_elem_of_nil.
  - cbn [fold_left]. rewrite IH, lookup_delete.
    destruct (decide (name ∈ names)) as [Hin|Hnin].
    + by rewrite decide_True by by apply list_elem_of_further.
    + destruct (decide (n = name)) as [->|Hne].
      * rewrite decide_True by apply list_elem_of_here. done.
      * rewrite decide_False; [done|]. intros [->|?]%elem_of_cons; done.
Qed.

Lemma Unregister_processors (names : list string) :
  ∀ b, processors (Unregister b names)
       = fold_left (λ m n, delete n m) names <$> processors b.
Proof.
  unfold Unregister.
  induction names as [|n names IH]; intros b.
  - cbn. by destruct (processors b).
  - cbn [fold_left]. rewrite IH.
    destruct (processors b) as [m|] eqn:Hm; cbn; by rewrite ?Hm.
Qed.

(** C9.  Get after Register(name, p) returns p with found = true, whether
    or not the name was registered before (an earlier processor under that
    name is replaced, every other name is left as it was); Get after an
    Unregister that names name returns found = false. *)
Theorem register_get_unregister b (name : string) p :
  Get (Register b name p) name = (p, true)
  ∧ (∀ old, Get (Register (Register b name old) name p) name = (p, true))
  ∧ (∀ other, other ≠ name → Get (Register b name p) other = Get b other)
  ∧ (∀ names, name ∈ names → Get (Unregister b names) name = (None, false))
  ∧ Get (Unregister (Register b name p) [name]) name = (None, false).
Proof.
  assert (Hreg : ∀ b', Get (Register b' name p) name = (p, true)).
  { intros b'. unfold Get, Register. cbn. by rewrite lookup_insert_eq. }
  assert (Hunreg : ∀ b' names, name ∈ names →
                               Get (Unregister b' names) name = (None, false)).
  { intros b' names Hin. unfold Get. rewrite Unregister_processors.
    destruct (processors b') as [m|]; cbn; [|done].
    by rewrite deletes_lookup, decide_True. }
  repeat split.
  - apply Hreg.
  - intros old. apply Hreg.
  - intros other Hne. unfold Get, Register. cbn.
    rewrite lookup_insert_ne by done.
    destruct (processors b); [done|]. by rewrite lookup_empty.
  - apply Hunreg.
  - apply Hunreg, list_elem_of_here.
Qed.

End Registry.

Example register_then_unregister :
  Get (Register (P := nat) Builtins "responseToBody" (Some 1%nat)) "responseToBody"
  = (Some 1%nat, true)
  ∧ Get (Unregister (Register (P := nat) Builtins "responseToBody" (Some 1%nat))
                    ["headersToMetadata"; "responseToBody"]) "responseToBody"
    = (None, false)
  ∧ Get (Unregister (P := nat) Builtins ["responseToBody"]) "responseToBody"
    = (None, false).
Proof. vm_compute. by repeat split. Qed.

End ProcessorProps.

(** * Properties of ParseVars *)

Module DslProps.
Import Types Dsl.

(** ** Containment up to case *)

Lemma prefix_app (sub : string) :
  ∀ s, String.prefix sub s = true ↔ ∃ post, s = sub +:+ post.
Proof.
  induction sub as [|c sub IH]; intros s.
  - split; [intros _; by exists s|intros _; by destruct s].
  - destruct s as [|c' s]; cbn.
    + split; [done|]. by intros [post [=]].
    + destruct (ascii_dec c c') as [->|Hne].
      * rewrite IH. split; intros [post Hpost]; exists post.
        -- by rewrite Hpost.
        -- by injection Hpost.
      * split; [done|]. intros [post [= ? _]]. done.
Qed.

Lemma Contains_spec (sub : string) :
  ∀ s, Contains s sub = true ↔ ∃ pre post, s = pre +:+ sub +:+ post.
Proof.
  induction s as [|c s IH]; cbn [Contains]; rewrite orb_true_iff, prefix_app.
  - split.
    + intros [[post Hpost]|?]; [|done]. by exists "", post.
    + intros (pre & post & Hs). left. destruct pre; [by exists post|done].
  - rewrite IH. split.
    + intros [[post Hpost]|(pre & post & Hs)].
      * by exists "", post.
      * exists (String c pre), post. by rewrite Hs.
    + intros (pre & post & Hs). destruct pre as [|c' pre].
      * left. by exists post.
      * right. injection Hs as _ Hs. by exists pre, post.
Qed.

Lemma append_cons (c : ascii) (s t : string) : String c s +:+ t = String c (s +:+ t).
Proof. reflexivity. Qed.

Lemma lowerBytes_app (s t : string) : lowerBytes (s +:+ t) = lowerBytes s +:+ lowerBytes t.
Proof.
  induction s as [|c s IH]; [done|].
  rewrite append_cons. cbn [lowerBytes]. by rewrite IH, append_cons.
Qed.

Lemma lowerBytes_app_inv (x : string) :
  ∀ s y, lowerBytes s = x +:+ y →
         ∃ s1 s2, s = s1 +:+ s2 ∧ lowerBytes s1 = x ∧ lowerBytes s2 = y.
Proof.
  induction x as [|c x IH]; intros s y Hs.
  - by exists "", s.
  - destruct s as [|c' s]; [done|]. injection Hs as Hc Hs.
    destruct (IH _ _ Hs) as (s1 & s2 & -> & <- & <-).
    exists (String c' s1), s2. cbn. by rewrite Hc.
Qed.

(** Bytes are told apart by their codes. *)
Lemma nat_of_ascii_inj (a b : ascii) : nat_of_ascii a = nat_of_ascii b → a = b.
Proof.
  intros Hab. rewrite <- (ascii_nat_embedding a), <- (ascii_nat_embedding b).
  by rewrite Hab.
Qed.

Lemma lowerByte_code (a : ascii) :
  nat_of_ascii (lowerByte a)
  = if (65 <=? nat_of_ascii a)%nat && (nat_of_ascii a <=? 90)%nat
    then (nat_of_ascii a + 32)%nat else nat_of_ascii a.
Proof.
  unfold lowerByte. destruct (_ && _) eqn:Hup; [|done].
  apply andb_true_iff in Hup as [?%Nat.leb_le ?%Nat.leb_le].
  apply nat_ascii_embedding. lia.
Qed.

(** Lowering a byte gives the byte [b], itself in lower case, exactly when
    the byte is [b] in either case. *)
Lemma lowerByte_eitherCase (a b : ascii) :
  lowerByte b = b → (lowerByte a = b ↔ eitherCase b a = true).
Proof.
  intros Hb. apply (f_equal nat_of_ascii) in Hb. rewrite lowerByte_code in Hb.
  unfold eitherCase, isLowerByte.
  rewrite orb_true_iff, !andb_true_iff, Ascii.eqb_eq, Nat.eqb_eq, !Nat.leb_le.
  split.
  - intros Hab. apply (f_equal nat_of_ascii) in Hab. rewrite lowerByte_code in Hab.
    destruct ((65 <=? nat_of_ascii a)%nat && (nat_of_ascii a <=? 90)%nat) eqn:Hup.
    + apply andb_true_iff in Hup as [?%Nat.leb_le ?%Nat.leb_le]. right. lia.
    + left. by apply nat_of_ascii_inj.
  - intros Hab. apply nat_of_ascii_inj. rewrite lowerByte_code.
    destruct ((65 <=? nat_of_ascii b)%nat && (nat_of_ascii b <=? 90)%nat) eqn:Hupb;
      [lia|].
    destruct Hab as [->|[[? ?] Hcode]].
    + by rewrite Hupb.
    + rewrite (proj2 (andb_true_iff _ _)); [done|].
      split; apply Nat.leb_le; lia.
Qed.

Lemma lowerBytes_equalIgnoringCase (word : string) :
  lowerBytes word = word →
  ∀ mid, lowerBytes mid = word ↔ equalIgnoringCase mid word = true.
Proof.
  induction word as [|b word IH]; intros Hword mid.
  - destruct mid; cbn; split; done.
  - injection Hword as Hb Hword.
    destruct mid as [|a mid]; cbn [lowerBytes equalIgnoringCase]; [split; done|].
    rewrite andb_true_iff, <- (IH Hword), <- (lowerByte_eitherCase _ _ Hb).
    split; [by intros [= ? ?]|by intros [-> ->]].
Qed.

(** On a name of ASCII bytes the test of line 32 is containment of a word
    up to case. *)
Lemma Contains_lowerBytes (word : string) :
  lowerBytes word = word →
  ∀ name, Contains (lowerBytes name) word = true ↔ containsIgnoringCase name word.
Proof.
  intros Hword name.
  rewrite Contains_spec. unfold containsIgnoringCase. split.
  - intros (p & q & Hl).
    apply lowerBytes_app_inv in Hl as (pre & rest & -> & <- & Hrest).
    apply lowerBytes_app_inv in Hrest as (mid & post & -> & Hmid & <-).
    exists pre, mid, post. split; [done|].
    by apply lowerBytes_equalIgnoringCase.
  - intros (pre & mid & post & -> & Hmid).
    apply (lowerBytes_equalIgnoringCase _ Hword) in Hmid.
    exists (lowerBytes pre), (lowerBytes post). by rewrite !lowerBytes_app, Hmid.
Qed.

(** The byte test of [strings.ToLower] tells the names of ASCII characters
    from the others. *)
Lemma isASCII_spec (name : string) : isASCII name = true ↔ asciiName name.
Proof.
  unfold asciiName. induction name as [|c name IH]; cbn [isASCII String.list_ascii_of_string].
  - split; [by constructor|done].
  - rewrite andb_true_iff, Forall_cons, IH. unfold isASCIIByte.
    by rewrite Nat.ltb_lt.
Qed.

Section Scan.
Context `{StrScanners}.

(** The test of line 32 singles out the script fields. *)
Lemma script_field_spec (fieldName : string) :
  Contains (ToLower fieldName) "script" = true ↔ scriptName fieldName.
Proof.
  unfold ToLower, scriptName.
  destruct (isASCII fieldName) eqn:Hascii.
  - apply isASCII_spec in Hascii. rewrite Contains_lowerBytes by done.
    split; [by left|]. by intros [[_ ?]|[? _]].
  - assert (Hn : ¬ asciiName fieldName).
    { intros Ha%isASCII_spec. by rewrite Ha in Hascii. }
    rewrite Contains_spec. split; [by right|]. by intros [[? _]|[_ ?]].
Qed.

Lemma insert_vars_elem (vars : list string) :
  ∀ (mergeVars : gset string) v,
    v ∈ fold_left (λ mergeVars v, {[ v ]} ∪ mergeVars) vars mergeVars
    ↔ v ∈ mergeVars ∨ v ∈ vars.
Proof.
  induction vars as [|x vars IH]; intros mergeVars v; cbn [fold_left].
  - rewrite elem_of_nil. tauto.
  - rewrite IH, elem_of_cons, elem_of_union, elem_of_singleton. tauto.
Qed.

Lemma scanField_elem (mergeVars : gset string) fieldName fieldValue v :
  v ∈ scanField mergeVars (fieldName, fieldValue)
  ↔ v ∈ mergeVars
    ∨ ∃ strV, fieldValue = AnyString strV ∧ v ∈ fieldVars fieldName strV.
Proof.
  unfold scanField, fieldVars.
  destruct fieldValue; try (split; [tauto|intros [?|(? & ? & ?)]; done]).
  rewrite insert_vars_elem. split.
  - intros [?|?]; [by left|]. right. eauto.
  - intros [?|(strV & [= <-] & ?)]; [by left|by right].
Qed.

Lemma scanFields_elem (fields : list (string * Any)) :
  ∀ (mergeVars : gset string) v,
    v ∈ fold_left scanField fields mergeVars
    ↔ v ∈ mergeVars
      ∨ ∃ fieldName strV,
          (fieldName, AnyString strV) ∈ fields ∧ v ∈ fieldVars fieldName strV.
Proof.
  induction fields as [|[fieldName fieldValue] fields IH]; intros mergeVars v;
    cbn [fold_left].
  - split; [tauto|]. intros [?|(? & ? & ?%elem_of_nil & _)]; done.
  - rewrite IH, scanField_elem. split.
    + intros [[?|(strV & Hfv & ?)]|(fn & strV & Hin & ?)].
      * by left.
      * right. subst fieldValue. exists fieldName, strV.
        split; [apply list_elem_of_here|done].
      * right. exists fn, strV. split; [by apply list_elem_of_further|done].
    + intros [?|(fn & strV & Hin & ?)]; [by left; left|].
      apply elem_of_cons in Hin as [Heq|Hin].
      * injection Heq as -> <-. left. right. eauto.
      * right. eauto.
Qed.

Lemma scanNode_elem (mergeVars : gset string) node v :
  v ∈ scanNode mergeVars node
  ↔ v ∈ mergeVars
    ∨ ∃ fieldName strV,
        node_Configuration node !! fieldName = Some (AnyString strV)
        ∧ v ∈ fieldVars fieldName strV.
Proof.
  unfold scanNode. rewrite scanFields_elem.
  by setoid_rewrite elem_of_map_to_list.
Qed.

Lemma scanNodes_elem (nodes : list RuleNode) :
  ∀ (mergeVars : gset string) v,
    v ∈ fold_left scanNode nodes mergeVars
    ↔ v ∈ mergeVars
      ∨ ∃ node fieldName strV,
          node ∈ nodes
          ∧ node_Configuration node !! fieldName = Some (AnyString strV)
          ∧ v ∈ fieldVars fieldName strV.
Proof.
  induction nodes as [|node nodes IH]; intros mergeVars v; cbn [fold_left].
  - split; [tauto|]. intros [?|(? & ? & ? & ?%elem_of_nil & _)]; done.
  - rewrite IH, scanNode_elem. split.
    + intros [[?|(fn & strV & ? & ?)]|(n & fn & strV & Hin & ? & ?)].
      * by left.
      * right. exists node, fn, strV. split; [apply list_elem_of_here|done].
      * right. exists n, fn, strV. split; [by apply list_elem_of_further|done].
    + intros [?|(n & fn & strV & Hin & ? & ?)]; [by left; left|].
      apply elem_of_cons in Hin as [->|Hin].
      * left. right. eauto.
      * right. eauto 6.
Qed.

Lemma fieldVars_spec fieldName strV v :
  v ∈ fieldVars fieldName strV
  ↔ (scriptName fieldName ∧ v ∈ str_ParseVars strV)
    ∨ (¬ scriptName fieldName ∧ v ∈ str_ParseVarsWithBraces strV).
Proof.
  unfold fieldVars. rewrite <- script_field_spec.
  destruct (Contains (ToLower fieldName) "script"); split.
  - intros ?. by left.
  - intros [[_ ?]|[Hn _]]; [done|]. by destruct Hn.
  - intros ?. by right.
  - intros [[? _]|[_ ?]]; done.
Qed.

(** ** Nil entries of the node slice *)

(** Without a nil entry the loop over the pointers is the loop over the
    nodes they point to. *)
Lemma scanNodePtrs_nodes (nodes : list RuleNode) :
  ∀ mergeVars : gset string,
    scanNodePtrs (Some <$> nodes) mergeVars = Ret (fold_left scanNode nodes mergeVars).
Proof.
  induction nodes as [|node nodes IH]; intros mergeVars; [done|].
  cbn [fmap list_fmap scanNodePtrs fold_left]. apply IH.
Qed.

(** A nil entry stops the loop with a panic, wherever it stands. *)
Lemma scanNodePtrs_nil_entry (nodes : list (option RuleNode)) :
  None ∈ nodes → ∀ mergeVars : gset string, scanNodePtrs nodes mergeVars = Panic.
Proof.
  induction nodes as [|[node|] nodes IH]; intros Hin mergeVars.
  - by apply elem_of_nil in Hin.
  - cbn [scanNodePtrs]. apply IH.
    apply elem_of_cons in Hin as [?|?]; done.
  - done.
Qed.

Lemma no_nil_entry (nodes : list (option RuleNode)) :
  None ∉ nodes → nodes = Some <$> omap id nodes.
Proof.
  induction nodes as [|[node|] nodes IH]; intros Hnn; [done| |].
  - cbn. f_equal. apply IH. intros ?. apply Hnn. by apply list_elem_of_further.
  - destruct Hnn. apply list_elem_of_here.
Qed.

(** On a definition of [Types], which has no nil node, the two agree. *)
Lemma ParseVarsOfNodes_definition (def : RuleChain) :
  ParseVarsOfNodes (Some <$> Nodes (Metadata def)) = Ret (ParseVars def).
Proof. unfold ParseVarsOfNodes, ParseVars. by rewrite scanNodePtrs_nodes. Qed.

Lemma scanNodePtrs_panics (nodes : list (option RuleNode)) :
  ∀ mergeVars : gset string, scanNodePtrs nodes mergeVars = Panic → None ∈ nodes.
Proof.
  induction nodes as [|[node|] nodes IH]; intros mergeVars Hp; [done| |].
  - apply list_elem_of_further, (IH _ Hp).
  - apply list_elem_of_here.
Qed.

(** ParseVars panics exactly on a node slice with a nil entry. *)
Lemma ParseVarsOfNodes_panics (nodes : list (option RuleNode)) :
  ParseVarsOfNodes nodes = Panic ↔ None ∈ nodes.
Proof.
  unfold ParseVarsOfNodes. split.
  - destruct (scanNodePtrs nodes ∅) eqn:Hs; [done|].
    intros _. by eapply scanNodePtrs_panics.
  - intros Hin. by rewrite scanNodePtrs_nil_entry.
Qed.

(** C10 (amended).  For a chain definition whose node slice has no nil
    entry, ParseVars returns a list without duplicates whose members are
    exactly the variable names found in the string-valued configuration
    fields of the nodes, a field whose name contains "script" whatever the
    case of its letters being scanned by str.ParseVars (the vars.xx
    convention) and every other string field by str.ParseVarsWithBraces
    (the ${vars.xx} convention). *)
Theorem ParseVars_distinct_and_exact (nodes : list (option RuleNode)) :
  None ∉ nodes →
  ∃ result,
    ParseVarsOfNodes nodes = Ret result
    ∧ NoDup result
    ∧ ∀ v,
        v ∈ result
        ↔ ∃ node fieldName strV,
            Some node ∈ nodes
            ∧ node_Configuration node !! fieldName = Some (AnyString strV)
            ∧ ((scriptName fieldName ∧ v ∈ str_ParseVars strV)
               ∨ (¬ scriptName fieldName ∧ v ∈ str_ParseVarsWithBraces strV)).
Proof.
  intros Hnn. exists (elements (fold_left scanNode (omap id nodes) ∅)).
  split.
  { unfold ParseVarsOfNodes.
    rewrite (no_nil_entry _ Hnn) at 1. by rewrite scanNodePtrs_nodes. }
  split; [apply NoDup_elements|].
  intros v. rewrite elem_of_elements, scanNodes_elem.
  setoid_rewrite fieldVars_spec.
  split.
  - intros [?%not_elem_of_empty|(node & fn & strV & Hin & Hrest)]; [done|].
    exists node, fn, strV. split; [|done].
    apply list_elem_of_omap in Hin as ([n|] & Hin & Hn); [|done].
    cbn in Hn. by injection Hn as ->.
  - intros (node & fn & strV & Hin & Hrest). right.
    exists node, fn, strV. split; [|done].
    apply list_elem_of_omap. by exists (Some node).
Qed.

End Scan.
End DslProps.

(** * The properties on the sample chains *)

Module OnSamples.
Import Types Engine ChainSpec ChainProps Sample.

#[local] Existing Instance collaborators.

(** The chain of three nodes builds, and resolving (a, Success) after two
    earlier calls yields b, b, c and the sub-chain sub1, in that order. *)
Lemma fan_next_nodes :
  InitRuleChainCtx (CB := collaborators) pools cfg [2; 3; 4]%nat fanChain
  = Ret (inr fanCtx)
  ∧ slice_elems
      (GetNextNodes pools a "Success"
         (execAll (callsOn pools [(a, "Success"); (a, "Failure")]) (fanCtx, 10%nat))).1.1
    = [OfRuleNode (Some (node "b")); OfRuleNode (Some (node "b"));
       OfRuleNode (Some (node "c")); OfRuleChain (Some 100%nat)].
Proof.
  assert (Hb : InitRuleChainCtx (CB := collaborators) pools cfg [2; 3; 4]%nat fanChain
               = Ret (inr fanCtx)) by (vm_compute; reflexivity).
  split; [exact Hb|].
  destruct (next_nodes_follow_definition_order (CB := collaborators)
              pools pools cfg [2; 3; 4]%nat fanChain fanCtx Hb
              [(a, "Success"); (a, "Failure")] 10%nat a "Success") as [Hout _].
  etransitivity; [exact Hout|]. vm_compute. reflexivity.
Defined.

(** After a reload and a change of aspects, the second of two calls for
    (a, Success) returns the slice of the first, although the pools have been
    emptied in between. *)
Lemma fan_repeated_calls :
  InitRuleChainCtx (CB := collaborators) pools cfg [2; 3; 4]%nat fanChain
  = Ret (inr fanCtx)
  ∧ Forall (λ op, isReload op = false)
      [OpGetNextNodes noPools a "Failure"; OpSetRuleChainPool (Some 7%nat)]
  ∧ (GetNextNodes noPools a "Success"
       (execAll [OpGetNextNodes noPools a "Failure"; OpSetRuleChainPool (Some 7%nat)]
          (GetNextNodes pools a "Success"
             (execAll [OpReloadSelf "fan"; OpSetAspects [6%nat]] (fanCtx, 10%nat))).2)).1.1
    = (GetNextNodes pools a "Success"
         (execAll [OpReloadSelf "fan"; OpSetAspects [6%nat]] (fanCtx, 10%nat))).1.1.
Proof.
  assert (Hb : InitRuleChainCtx (CB := collaborators) pools cfg [2; 3; 4]%nat fanChain
               = Ret (inr fanCtx)) by (vm_compute; reflexivity).
  assert (Hbetween : Forall (λ op, isReload op = false)
            [OpGetNextNodes noPools a "Failure"; OpSetRuleChainPool (Some 7%nat)])
    by (repeat constructor).
  split; [exact Hb|]. split; [exact Hbetween|].
  exact (proj1 (proj2 (repeated_next_nodes_identical (CB := collaborators)
           pools cfg [2; 3; 4]%nat fanChain fanCtx Hb
           [OpReloadSelf "fan"; OpSetAspects [6%nat]]
           [OpGetNextNodes noPools a "Failure"; OpSetRuleChainPool (Some 7%nat)]
           10%nat pools noPools a "Success" Hbetween))).
Defined.

(** C3 (as the code has it).  Reloading the chain context of the empty
    chain with a one-node definition swaps in the nodes of the new context
    and leaves isEmpty at true, where a fresh build of the new definition
    has it false: Copy does not assign isEmpty. *)
Theorem reload_keeps_stale_isEmpty :
  InitRuleChainCtx (CB := collaborators) pools cfg [2; 3]%nat emptyChain
  = Ret (inr emptyCtx)
  ∧ InitRuleChainCtx (CB := collaborators) pools cfg [2; 3]%nat oneNodeChain
    = Ret (inr oneNodeCtx)
  ∧ DecodeRuleChain (Collaborators := collaborators) cfg [2; 3]%nat "one"
    = inr oneNodeCtx
  ∧ (ReloadSelf (CB := collaborators) emptyCtx "one").2 = None
  ∧ nodeIds (ReloadSelf (CB := collaborators) emptyCtx "one").1.2 = nodeIds oneNodeCtx
  ∧ nodes (ReloadSelf (CB := collaborators) emptyCtx "one").1.2 = nodes oneNodeCtx
  ∧ isEmpty oneNodeCtx = false
  ∧ isEmpty (ReloadSelf (CB := collaborators) emptyCtx "one").1.2 = true.
Proof. repeat split; vm_compute; reflexivity. Qed.

(** A whole-chain reload empties the cache: the same question is then
    answered by a new slice with the same contents. *)
Example reload_gives_new_slice :
  let '(s1, _, st1) := GetNextNodes pools a "Success" (fanCtx, 10%nat) in
  let '(_, rc2, _) := ReloadSelf st1.1 "fan" in
  let '(s2, _, _) := GetNextNodes pools a "Success" (rc2, st1.2) in
  slice_elems s2 = slice_elems s1 ∧ base <$> s1 = Some 13%nat ∧ base <$> s2 = Some 17%nat.
Proof. vm_compute. by repeat split. Qed.

(** Scenario S1 of the specification: a linear chain a, b, c. *)
Example linear_chain :
  let def :=
    chainOf 0 [node "a"; node "b"; node "c"]
      [mkNodeConnection "a" "b" "Success"; mkNodeConnection "b" "c" "Success"] [] None in
  let rc := builtOr (InitRuleChainCtx pools cfg [] def) in
  GetFirstNode pools rc = Ret (OfRuleNode (Some (node "a")), true)
  ∧ (GetNextNodes pools a "Success" (rc, 0%nat)).1
    = (Some (mkSlice 0%nat [OfRuleNode (Some (node "b"))]), true)
  ∧ (GetNextNodes pools (mkRuleNodeId "c" NODE) "Success" (rc, 0%nat)).1 = (None, false).
Proof. vm_compute. by repeat split. Qed.

(** Scenario S5: two unnamed nodes become node0 and node1, and a connection
    between those ids resolves. *)
Example auto_ids :
  let unnamed := mkRuleNode "" "jsFilter" "" false ∅ in
  let def := chainOf 0 [unnamed; unnamed] [mkNodeConnection "node0" "node1" "Success"] [] None in
  let rc := builtOr (InitRuleChainCtx pools cfg [] def) in
  nodeIds rc = [mkRuleNodeId "node0" NODE; mkRuleNodeId "node1" NODE]
  ∧ slice_elems (GetNextNodes pools (mkRuleNodeId "node0" NODE) "Success" (rc, 0%nat)).1.1
    = [OfRuleNode (Some (setNodeId unnamed "node1"))].
Proof. vm_compute. by repeat split. Qed.

(** A first-node index beyond the nodes makes a chain with nodes count as
    empty; a negative one makes the build panic. *)
Example first_index_out_of_range :
  isEmpty (builtOr (InitRuleChainCtx pools cfg [] (chainOf 1 [node "a"] [] [] None))) = true
  ∧ InitRuleChainCtx pools cfg [] (chainOf (-1) [node "a"] [] [] None) = Panic.
Proof. vm_compute. by split. Qed.

(** On the three-node chain, whose reload hooks are 2 and 4, a reload with
    an undecodable document calls hook 2 and hook 4 with the decode error
    and returns the error of hook 4; the context is left as it was. *)
Lemma fan_reload_with_bad_document :
  ReloadSelf (CB := collaborators) fanCtx "bad"
  = ([EvOnReload 2%nat fanCtx ReloadedSelf (Some "invalid character");
      EvOnReload 4%nat fanCtx ReloadedSelf (Some "invalid character")],
     fanCtx, Some "hook 4 refused").
Proof.
  exact (proj1 (proj2 (ReloadSelf_runs_reload_hooks (CB := collaborators) fanCtx "bad"))
           [2%nat] 4%nat [] "hook 4 refused" eq_refl
           ltac:(intros a' [->|[]%elem_of_nil]%elem_of_cons; reflexivity) eq_refl).
Defined.

(** C5, the claim as stated fails: the chain with no node builds, isEmpty
    is true, and GetFirstNode does not return a present node. *)
Lemma first_node_of_empty_chain_not_found :
  InitRuleChainCtx (CB := collaborators) pools cfg [2; 3]%nat emptyChain
  = Ret (inr emptyCtx)
  ∧ Nodes (Metadata emptyChain) = []
  ∧ isEmpty emptyCtx = true
  ∧ ¬ ∃ n, GetFirstNode pools emptyCtx = Ret (n, true).
Proof.
  repeat split; try (vm_compute; reflexivity).
  intros [n Hn]. vm_compute in Hn. discriminate Hn.
Qed.

(** The empty chain: isEmpty, a root synthesized from the empty definition,
    and a first-node lookup that finds nothing. *)
Lemma empty_chain_first_node_sample :
  InitRuleChainCtx (CB := collaborators) pools cfg [2; 3]%nat emptyChain
  = Ret (inr emptyCtx)
  ∧ Nodes (Metadata emptyChain) = []
  ∧ isEmpty emptyCtx = true
  ∧ GetFirstNode pools emptyCtx = Ret (OfRuleNode None, false).
Proof.
  assert (Hb : InitRuleChainCtx (CB := collaborators) pools cfg [2; 3]%nat emptyChain
               = Ret (inr emptyCtx)) by (vm_compute; reflexivity).
  destruct (empty_chain_first_node (CB := collaborators) pools pools cfg [2; 3]%nat
              emptyChain emptyCtx Hb (or_introl eq_refl)) as (He & _ & Hf).
  split; [exact Hb|]. split; [reflexivity|]. split; [exact He|exact Hf].
Defined.

(** Index -1 on the three-node chain. *)
Lemma fan_index_minus_one :
  (-1 < 0)%Z ∧ GetNodeByIndex pools fanCtx (-1) = Panic.
Proof.
  split; [lia|]. apply (GetNodeByIndex_negative_panics pools fanCtx (-1)). lia.
Defined.

(** The secret that decrypts is stored as plaintext, the other verbatim,
    and no other key appears. *)
Lemma secret_chain_secrets :
  chain_Configuration (RuleChain_ secretChain)
  = Some {[ "secrets" := AnyStringMap {[ "db" := "enc:hunter2"; "api" := "plain" ]};
            "vars" := AnyStringMap {[ "region" := "eu" ]} ]}
  ∧ InitRuleChainCtx (CB := collaborators) pools cfg [2; 3]%nat secretChain
    = Ret (inr secretCtx)
  ∧ decryptSecrets secretCtx !! "db" = Some "hunter2"
  ∧ decryptSecrets secretCtx !! "api" = Some "plain"
  ∧ decryptSecrets secretCtx !! "region" = None.
Proof.
  assert (Hb : InitRuleChainCtx (CB := collaborators) pools cfg [2; 3]%nat secretChain
               = Ret (inr secretCtx)) by (vm_compute; reflexivity).
  destruct (secrets_decrypted_or_verbatim (CB := collaborators) pools cfg [2; 3]%nat
              secretChain _ eq_refl) as (Hs & _).
  split; [reflexivity|]. split; [exact Hb|].
  repeat split; rewrite (Hs secretCtx Hb); vm_compute; reflexivity.
Defined.

(** The relations from a to the missing node zz, to the sub-chain sub9 that
    the pool does not hold and to the sub-chain sub2 whose engine returns
    the nil interface value leave no trace in the successors of
    (a, Success). *)
Lemma fan_missing_node_omitted :
  InitRuleChainCtx (CB := collaborators) pools cfg [2; 3; 4]%nat fanChain
  = Ret (inr fanCtx)
  ∧ unresolvable pools fanCtx (mkRuleNodeId "zz" NODE)
  ∧ unresolvable pools fanCtx (mkRuleNodeId "sub9" CHAIN)
  ∧ unresolvable pools fanCtx (mkRuleNodeId "sub2" CHAIN)
  ∧ GetNodeById pools fanCtx (mkRuleNodeId "sub9" CHAIN) = (NilNodeCtx, false)
  ∧ GetNodeById pools fanCtx (mkRuleNodeId "sub2" CHAIN) = (NilNodeCtx, false)
  ∧ slice_elems (GetNextNodes pools a "Success" (fanCtx, 10%nat)).1.1
    = [OfRuleNode (Some (node "b")); OfRuleNode (Some (node "b"));
       OfRuleNode (Some (node "c")); OfRuleChain (Some 100%nat)].
Proof.
  assert (Hb : InitRuleChainCtx (CB := collaborators) pools cfg [2; 3; 4]%nat fanChain
               = Ret (inr fanCtx)) by (vm_compute; reflexivity).
  assert (Hzz : unresolvable pools fanCtx (mkRuleNodeId "zz" NODE))
    by (vm_compute; reflexivity).
  assert (H9 : unresolvable pools fanCtx (mkRuleNodeId "sub9" CHAIN))
    by (vm_compute; exact I).
  assert (H2 : unresolvable pools fanCtx (mkRuleNodeId "sub2" CHAIN))
    by (vm_compute; reflexivity).
  split; [exact Hb|]. split; [exact Hzz|]. split; [exact H9|]. split; [exact H2|].
  destruct (unresolvable_relation_is_omitted (CB := collaborators)
              pools pools cfg [2; 3; 4]%nat fanChain fanCtx
              [nodeRelation (mkNodeConnection "a" "b" "Success")]
              (nodeRelation (mkNodeConnection "a" "zz" "Success"))
              (skipn 2 (relations_of fanChain)) Hb eq_refl Hzz) as [_ Hres].
  destruct (unresolvable_relation_is_omitted (CB := collaborators)
              pools pools cfg [2; 3; 4]%nat fanChain fanCtx
              (firstn 5 (relations_of fanChain))
              (chainRelation (mkRuleChainConnection "a" "sub9" "Success"))
              (skipn 6 (relations_of fanChain)) Hb eq_refl H9) as [Hget9 _].
  destruct (unresolvable_relation_is_omitted (CB := collaborators)
              pools pools cfg [2; 3; 4]%nat fanChain fanCtx
              (firstn 7 (relations_of fanChain))
              (chainRelation (mkRuleChainConnection "a" "sub2" "Success"))
              [] Hb eq_refl H2) as [Hget2 _].
  split; [exact Hget9|]. split; [exact Hget2|].
  destruct (Hres [] 10%nat a "Success") as [Helems _].
  etransitivity; [exact Helems|]. vm_compute. reflexivity.
Defined.

(** The three-node chain, asked for (a, Success) while the pool holds the
    engine sub2 without a root chain context: the nil chain context of sub2
    is the last of the successors. *)
Lemma fan_nil_root_returned :
  InitRuleChainCtx (CB := collaborators) pools cfg [2; 3; 4]%nat fanChain
  = Ret (inr fanCtx)
  ∧ nilRootPools (GetRuleChainPool fanCtx) !! "sub2" = Some (mkRuleEngine (Some None))
  ∧ GetNodeById nilRootPools fanCtx (mkRuleNodeId "sub2" CHAIN)
    = (OfRuleChain None, true)
  ∧ (GetNextNodes nilRootPools a "Success" (fanCtx, 10%nat)).1.2 = true
  ∧ slice_elems (GetNextNodes nilRootPools a "Success" (fanCtx, 10%nat)).1.1
    = [OfRuleNode (Some (node "b")); OfRuleNode (Some (node "b"));
       OfRuleNode (Some (node "c")); OfRuleChain (Some 100%nat); OfRuleChain None].
Proof.
  assert (Hb : InitRuleChainCtx (CB := collaborators) pools cfg [2; 3; 4]%nat fanChain
               = Ret (inr fanCtx)) by (vm_compute; reflexivity).
  assert (Hpool : nilRootPools (GetRuleChainPool fanCtx) !! "sub2"
                  = Some (mkRuleEngine (Some None))) by (vm_compute; reflexivity).
  split; [exact Hb|]. split; [exact Hpool|].
  destruct (nil_root_chain_is_returned (CB := collaborators)
              pools nilRootPools cfg [2; 3; 4]%nat fanChain fanCtx
              (firstn 7 (relations_of fanChain))
              (chainRelation (mkRuleChainConnection "a" "sub2" "Success"))
              [] (mkRuleEngine (Some None)) Hb eq_refl eq_refl Hpool eq_refl)
    as [Hget Hres].
  split; [exact Hget|].
  destruct (Hres [] 10%nat) as [Helems Hfound].
  split; [exact Hfound|].
  etransitivity; [exact Helems|]. vm_compute. reflexivity.
Defined.

End OnSamples.

(** * ParseVars on sample nodes *)

Module OnDslSamples.
Import Types Sample MoreSample Dsl DslProps.

(** Names the test of line 32 accepts and names it refuses; the third has
    the letter U+0130 in place of the i. *)
Example script_fields :
  Contains (ToLower "jsScript") "script" = true
  ∧ Contains (ToLower "SCRIPT") "script" = true
  ∧ Contains (ToLower dottedScript) "script" = true
  ∧ Contains (ToLower "scrip") "script" = false
  ∧ Contains (ToLower "url") "script" = false.
Proof. vm_compute. by repeat split. Qed.

(** C10, the claim as stated fails: on a node slice with a nil entry
    ParseVars panics and returns no list. *)
Lemma nil_node_panics :
  ParseVarsOfNodes [Some scriptNode; None; Some restNode] = Panic
  ∧ ¬ ∃ result, ParseVarsOfNodes [Some scriptNode; None; Some restNode] = Ret result.
Proof.
  assert (Hp : ParseVarsOfNodes [Some scriptNode; None; Some restNode] = Panic)
    by (vm_compute; reflexivity).
  split; [exact Hp|]. intros [result Hr]. rewrite Hp in Hr. discriminate Hr.
Qed.

(** A script node, a REST node and a node with the fields SCRIPT and scr,
    U+0130, pt: the names of the three script fields are read the vars.xx
    way and the name in the url the braces way; the number is passed over. *)
Lemma script_and_rest_nodes :
  (None ∉ [Some scriptNode; Some restNode; Some dottedNode])
  ∧ ∃ result,
      ParseVarsOfNodes [Some scriptNode; Some restNode; Some dottedNode] = Ret result
      ∧ NoDup result
      ∧ "limit" ∈ result ∧ "host" ∈ result ∧ "rate" ∈ result ∧ "step" ∈ result
      ∧ length result = 4%nat.
Proof.
  assert (Hnn : None ∉ [Some scriptNode; Some restNode; Some dottedNode]).
  { intros Hin. repeat (apply elem_of_cons in Hin as [Hin|Hin]; [discriminate Hin|]).
    by apply elem_of_nil in Hin. }
  split; [exact Hnn|].
  destruct (ParseVars_distinct_and_exact _ Hnn) as (result & Hret & Hnd & Hexact).
  exists result. split; [exact Hret|]. split; [exact Hnd|].
  split.
  { apply Hexact. exists scriptNode, "jsScript", "vars.limit".
    split; [apply list_elem_of_here|]. split; [reflexivity|].
    left. split; [apply script_field_spec; reflexivity|].
    apply list_elem_of_In. vm_compute. by left. }
  split.
  { apply Hexact. exists restNode, "url", "${vars.host}".
    split; [apply list_elem_of_further, list_elem_of_here|]. split; [reflexivity|].
    right. split; [rewrite <- script_field_spec; vm_compute; discriminate|].
    apply list_elem_of_In. vm_compute. by left. }
  split.
  { apply Hexact. exists dottedNode, dottedScript, "vars.rate".
    split; [do 2 apply list_elem_of_further; apply list_elem_of_here|].
    split; [reflexivity|].
    left. split; [apply script_field_spec; reflexivity|].
    apply list_elem_of_In. vm_compute. by left. }
  split.
  { apply Hexact. exists dottedNode, "SCRIPT", "vars.step".
    split; [do 2 apply list_elem_of_further; apply list_elem_of_here|].
    split; [reflexivity|].
    left. split; [apply script_field_spec; reflexivity|].
    apply list_elem_of_In. vm_compute. by left. }
  assert (Hlen : ∀ l, ParseVarsOfNodes [Some scriptNode; Some restNode; Some dottedNode]
                      = Ret l → length l = 4%nat).
  { intros l. vm_compute. intros [= <-]. reflexivity. }
  exact (Hlen _ Hret).
Defined.

End OnDslSamples.

(** * Further properties of the chain context *)

Module MoreProps.
Import Types Engine ChainSpec ChainProps ChainNode MoreSpec.

(** Projections of updated contexts. *)
Ltac fields :=
  cbn [SelfDefinition nodeIds nodes nodeRoutes relationCache ruleChainPool isEmpty
       rootRuleContext Engine.config Engine.aspects reloadAspects destroyAspects
       with_nodes with_nodeIds with_SelfDefinition with_nodeRoutes with_root
       with_engineAspects with_relationCache setDefinitionNode
       Metadata Nodes RuleChain_ FirstNodeIndex Connections RuleChainConnections
       fst snd] in *.

(** ** Loading the nodes *)

Section Loading.
Context {NL : NodeLayer} {CB : Collaborators}.

Lemma loadNodes_cons config index item rest (rc : RuleChainCtx) :
  loadNodes config index (item :: rest) rc =
  let rc1 :=
    with_nodeIds
      (with_SelfDefinition rc
         (setDefinitionNode (SelfDefinition rc) index (assignId index item)))
      (<[index := idOf index item]> (nodeIds rc)) in
  match InitRuleNodeCtx config rc1 (assignId index item) with
  | (_, Some err) => inl err
  | (c, None) =>
      loadNodes config (S index) rest
        (with_nodes rc1 (<[idOf index item := OfRuleNode c]> (nodes rc)))
  end.
Proof. reflexivity. Qed.

(** Induction over a successful load: a property of the pair (context
    before, context after) that holds of no step at all, and is carried
    over one step followed by the rest. *)
Lemma loadNodes_ind_ok config
    (P : nat → list RuleNode → RuleChainCtx → RuleChainCtx → Prop) :
  (∀ index rc, P index [] rc rc) →
  (∀ index item rest rc c rc',
     let rc1 :=
       with_nodeIds
         (with_SelfDefinition rc
            (setDefinitionNode (SelfDefinition rc) index (assignId index item)))
         (<[index := idOf index item]> (nodeIds rc)) in
     InitRuleNodeCtx config rc1 (assignId index item) = (c, None) →
     let rc2 := with_nodes rc1 (<[idOf index item := OfRuleNode c]> (nodes rc)) in
     loadNodes config (S index) rest rc2 = inr rc' →
     P (S index) rest rc2 rc' →
     P index (item :: rest) rc rc') →
  ∀ items index rc rc',
    loadNodes config index items rc = inr rc' → P index items rc rc'.
Proof.
  intros Hnil Hcons. induction items as [|item rest IH]; intros index rc rc' Hl.
  - injection Hl as <-. apply Hnil.
  - rewrite loadNodes_cons in Hl. cbv zeta in Hl.
    destruct (InitRuleNodeCtx _ _ _) as [c [err|]] eqn:Hinit; [done|].
    eapply Hcons; [exact Hinit|exact Hl|]. by apply IH.
Qed.

(** Loading touches the definition in its node list only, and keeps the
    lengths of the node list and of [nodeIds]. *)
Lemma loadNodes_definition_frame config items index (rc rc' : RuleChainCtx) :
  loadNodes config index items rc = inr rc' →
  RuleChain_ (SelfDefinition rc') = RuleChain_ (SelfDefinition rc)
  ∧ FirstNodeIndex (Metadata (SelfDefinition rc'))
    = FirstNodeIndex (Metadata (SelfDefinition rc))
  ∧ Connections (Metadata (SelfDefinition rc'))
    = Connections (Metadata (SelfDefinition rc))
  ∧ RuleChainConnections (Metadata (SelfDefinition rc'))
    = RuleChainConnections (Metadata (SelfDefinition rc))
  ∧ length (Nodes (Metadata (SelfDefinition rc')))
    = length (Nodes (Metadata (SelfDefinition rc)))
  ∧ length (nodeIds rc') = length (nodeIds rc).
Proof.
  revert items index rc rc'. apply loadNodes_ind_ok.
  - done.
  - intros index item rest rc c rc' rc1 _ rc2 _ (H1 & H2 & H3 & H4 & H5 & H6).
    subst rc1 rc2. fields.
    rewrite length_insert in H5. rewrite length_insert in H6. done.
Qed.

(** Positions before the one being loaded are left alone. *)
Lemma loadNodes_below config items index (rc rc' : RuleChainCtx) :
  loadNodes config index items rc = inr rc' →
  ∀ j, (j < index)%nat →
       nodeIds rc' !! j = nodeIds rc !! j
       ∧ Nodes (Metadata (SelfDefinition rc')) !! j
         = Nodes (Metadata (SelfDefinition rc)) !! j.
Proof.
  revert items index rc rc'.
  apply (loadNodes_ind_ok config (λ index items rc rc',
    ∀ j, (j < index)%nat →
         nodeIds rc' !! j = nodeIds rc !! j
         ∧ Nodes (Metadata (SelfDefinition rc')) !! j
           = Nodes (Metadata (SelfDefinition rc)) !! j)).
  - done.
  - intros index item rest rc c rc' rc1 _ rc2 _ IH j Hj.
    destruct (IH j ltac:(lia)) as [-> ->]. subst rc1 rc2. fields.
    by rewrite !list_lookup_insert_ne by lia.
Qed.

(** The node at position [k] of the list gets its id into [nodeIds] and its
    named definition into the definition, at position [index + k]. *)
Lemma loadNodes_at config items index (rc rc' : RuleChainCtx) :
  loadNodes config index items rc = inr rc' →
  ∀ k item, items !! k = Some item →
    ((index + k < length (nodeIds rc))%nat →
     nodeIds rc' !! (index + k)%nat = Some (idOf (index + k) item))
    ∧ ((index + k < length (Nodes (Metadata (SelfDefinition rc))))%nat →
       Nodes (Metadata (SelfDefinition rc')) !! (index + k)%nat
       = Some (assignId (index + k) item)).
Proof.
  revert items index rc rc'.
  apply (loadNodes_ind_ok config (λ index items rc rc',
    ∀ k item, items !! k = Some item →
      ((index + k < length (nodeIds rc))%nat →
       nodeIds rc' !! (index + k)%nat = Some (idOf (index + k) item))
      ∧ ((index + k < length (Nodes (Metadata (SelfDefinition rc))))%nat →
         Nodes (Metadata (SelfDefinition rc')) !! (index + k)%nat
         = Some (assignId (index + k) item)))).
  - intros index rc k item Hk. by rewrite lookup_nil in Hk.
  - intros index item rest rc c rc' rc1 _ rc2 Hl IH [|k] it Hk.
    + injection Hk as <-. rewrite Nat.add_0_r.
      destruct (loadNodes_below _ _ _ _ _ Hl index ltac:(lia)) as [-> ->].
      subst rc1 rc2. fields.
      split; intros Hlen; by rewrite list_lookup_insert_eq.
    + replace (index + S k)%nat with (S index + k)%nat by lia.
      destruct (IH k it Hk) as [Hids Hdef]. subst rc1 rc2. fields.
      rewrite length_insert in Hids. rewrite length_insert in Hdef. done.
Qed.

(** The ids [nodes] holds after loading: those it held, and those of the
    nodes loaded. *)
Lemma loadNodes_nodes_dom config items index (rc rc' : RuleChainCtx) :
  loadNodes config index items rc = inr rc' →
  ∀ id, is_Some (nodes rc' !! id)
        ↔ is_Some (nodes rc !! id)
          ∨ ∃ k item, items !! k = Some item ∧ id = idOf (index + k) item.
Proof.
  revert items index rc rc'.
  apply (loadNodes_ind_ok config (λ index items rc rc',
    ∀ id, is_Some (nodes rc' !! id)
          ↔ is_Some (nodes rc !! id)
            ∨ ∃ k item, items !! k = Some item ∧ id = idOf (index + k) item)).
  - intros index rc id. split; [by left|].
    intros [?|(k & item & Hk & _)]; [done|]. by rewrite lookup_nil in Hk.
  - intros index item rest rc c rc' rc1 _ rc2 _ IH id.
    rewrite IH. subst rc1 rc2. fields. rewrite lookup_insert. split.
    + intros [Hs|(k & it & Hk & ->)].
      * destruct (decide (idOf index item = id)) as [<-|Hne]; [|by left].
        right. exists 0%nat, item. by rewrite Nat.add_0_r.
      * right. exists (S k), it.
        split; [done|]. f_equal; lia.
    + intros [Hs|(k & it & Hk & ->)].
      * left. by destruct (decide _).
      * destruct k as [|k].
        -- injection Hk as <-. left. rewrite Nat.add_0_r.
           by rewrite decide_True.
        -- right. exists k, it. split; [done|]. f_equal; lia.
Qed.

(** Every entry of [nodes] after loading is one it held or a node context
    the builder returned without error. *)
Lemma loadNodes_nodes_built config items index (rc rc' : RuleChainCtx) :
  loadNodes config index items rc = inr rc' →
  ∀ id n, nodes rc' !! id = Some n →
    nodes rc !! id = Some n
    ∨ ∃ k item underConstruction c,
        items !! k = Some item ∧ id = idOf (index + k) item
        ∧ InitRuleNodeCtx config underConstruction (assignId (index + k) item) = (c, None)
        ∧ n = OfRuleNode c.
Proof.
  revert items index rc rc'.
  apply (loadNodes_ind_ok config (λ index items rc rc',
    ∀ id n, nodes rc' !! id = Some n →
      nodes rc !! id = Some n
      ∨ ∃ k item underConstruction c,
          items !! k = Some item ∧ id = idOf (index + k) item
          ∧ InitRuleNodeCtx config underConstruction (assignId (index + k) item)
            = (c, None)
          ∧ n = OfRuleNode c)).
  - intros. by left.
  - intros index item rest rc c rc' rc1 Hinit rc2 _ IH id n Hn.
    destruct (IH id n Hn) as [Hold|(k & it & uc & c' & Hk & -> & Hc' & ->)].
    + subst rc2. fields. rewrite lookup_insert in Hold.
      destruct (decide (idOf index item = id)) as [<-|Hne]; [|by left].
      injection Hold as <-. right. exists 0%nat, item, rc1, c.
      by rewrite Nat.add_0_r.
    + right. exists (S k), it, uc, c'.
      replace (index + S k)%nat with (S index + k)%nat by lia. done.
Qed.

(** Nodes loaded under other ids leave an entry alone. *)
Lemma loadNodes_nodes_other config items index (rc rc' : RuleChainCtx) :
  loadNodes config index items rc = inr rc' →
  ∀ id, (∀ k item, items !! k = Some item → idOf (index + k) item ≠ id) →
        nodes rc' !! id = nodes rc !! id.
Proof.
  revert items index rc rc'.
  apply (loadNodes_ind_ok config (λ index items rc rc',
    ∀ id, (∀ k item, items !! k = Some item → idOf (index + k) item ≠ id) →
          nodes rc' !! id = nodes rc !! id)).
  - done.
  - intros index item rest rc c rc' rc1 _ rc2 _ IH id Hother.
    rewrite IH.
    + subst rc1 rc2. fields. rewrite lookup_insert_ne; [done|].
      specialize (Hother 0%nat item eq_refl). by rewrite Nat.add_0_r in Hother.
    + intros k it Hk. specialize (Hother (S k) it Hk).
      by replace (index + S k)%nat with (S index + k)%nat in Hother by lia.
Qed.

(** Loading a list in two halves. *)
Lemma loadNodes_app config pre rest :
  ∀ index (rc rc' : RuleChainCtx),
    loadNodes config index (pre ++ rest) rc = inr rc' →
    ∃ mid, loadNodes config index pre rc = inr mid
           ∧ loadNodes config (index + length pre) rest mid = inr rc'.
Proof.
  induction pre as [|item pre IH]; intros index rc rc' Hl.
  - exists rc. by rewrite Nat.add_0_r.
  - cbn [app] in Hl. rewrite loadNodes_cons in Hl |- *. cbv zeta in Hl |- *.
    destruct (InitRuleNodeCtx _ _ _) as [c [err|]]; [done|].
    destruct (IH _ _ _ Hl) as (mid & Hpre & Hrest).
    exists mid. split; [done|].
    by replace (index + length (item :: pre))%nat
      with (S index + length pre)%nat by (cbn; lia).
Qed.

(** Loading fails with the error of the first node the builder rejects. *)
Lemma loadNodes_first_error config pre item post err :
  (∀ underConstruction k it,
     pre !! k = Some it →
     (InitRuleNodeCtx config underConstruction (assignId k it)).2 = None) →
  (∀ underConstruction,
     (InitRuleNodeCtx config underConstruction (assignId (length pre) item)).2
     = Some err) →
  ∀ rc, loadNodes config 0 (pre ++ item :: post) rc = inl err.
Proof.
  intros Hpre Hitem.
  assert (Hgen : ∀ pre' index rc,
    (∀ uc k it, pre' !! k = Some it →
                (InitRuleNodeCtx config uc (assignId (index + k) it)).2 = None) →
    (∀ uc, (InitRuleNodeCtx config uc (assignId (index + length pre') item)).2
           = Some err) →
    loadNodes config index (pre' ++ item :: post) rc = inl err).
  { induction pre' as [|it pre' IH]; intros index rc Hp Hi.
    - cbn [app]. rewrite loadNodes_cons. cbv zeta.
      specialize (Hi (with_nodeIds
         (with_SelfDefinition rc
            (setDefinitionNode (SelfDefinition rc) index (assignId index item)))
         (<[index := idOf index item]> (nodeIds rc)))).
      cbn [length] in Hi. rewrite Nat.add_0_r in Hi.
      destruct (InitRuleNodeCtx _ _ _) as [c e]. cbn in Hi. by subst e.
    - cbn [app]. rewrite loadNodes_cons. cbv zeta.
      pose proof (Hp (with_nodeIds
         (with_SelfDefinition rc
            (setDefinitionNode (SelfDefinition rc) index (assignId index it)))
         (<[index := idOf index it]> (nodeIds rc))) 0%nat it eq_refl) as H0.
      rewrite Nat.add_0_r in H0.
      destruct (InitRuleNodeCtx _ _ _) as [c e]. cbn in H0. subst e.
      apply IH.
      + intros uc k it' Hk. specialize (Hp uc (S k) it' Hk).
        by replace (index + S k)%nat with (S index + k)%nat in Hp by lia.
      + intros uc. specialize (Hi uc).
        by replace (index + length (it :: pre'))%nat
          with (S index + length pre')%nat in Hi by (cbn; lia). }
  intros rc. apply Hgen; [exact Hpre|exact Hitem].
Qed.

End Loading.

(** ** What a built context holds *)

Section Built.
Context {NL : NodeLayer} {CB : Collaborators}.

Lemma built_loaded ps config aspects def rc :
  InitRuleChainCtx ps config aspects def = Ret (inr rc) →
  ∃ loaded,
    loadNodes config 0 (Nodes (Metadata def)) (newRuleChainCtx config aspects def)
    = inr loaded
    ∧ nodes rc = nodes loaded ∧ nodeIds rc = nodeIds loaded
    ∧ SelfDefinition rc = SelfDefinition loaded.
Proof.
  intros (loaded & rooted & Hl & Hr & ->)%InitRuleChainCtx_stages.
  apply initRoot_frame in Hr as (Hn & _ & _ & _ & Hi & Hd & _).
  exists loaded. fields. by rewrite Hn, Hi, Hd.
Qed.

Lemma GetNodeByIndex_in_range ps (rc : RuleChainCtx) (i : nat) id n :
  nodeIds rc !! i = Some id → Type_ id = NODE → nodes rc !! id = Some n →
  GetNodeByIndex ps rc (Z.of_nat i) = Ret (n, true).
Proof.
  intros Hi Hty Hn. unfold GetNodeByIndex.
  apply lookup_lt_Some in Hi as Hlt.
  destruct (Z.of_nat i >=? _)%Z eqn:Hge; [apply Z.geb_le in Hge; lia|].
  destruct (Z.of_nat i <? 0)%Z eqn:Hneg; [apply Z.ltb_lt in Hneg; lia|].
  rewrite Nat2Z.id, Hi. unfold GetNodeById. by rewrite Hty, Hn.
Qed.

(** What the load of the nodes of a definition, started from the fresh
    context, leaves. *)
Lemma loaded_ids config aspects def loaded :
  loadNodes config 0 (Nodes (Metadata def)) (newRuleChainCtx config aspects def)
  = inr loaded →
  nodeIds loaded = imap idOf (Nodes (Metadata def))
  ∧ Nodes (Metadata (SelfDefinition loaded)) = imap assignId (Nodes (Metadata def)).
Proof.
  intros Hl.
  destruct (newRuleChainCtx_fields config aspects def)
    as (_ & _ & _ & _ & _ & Hlen0 & Hdef0 & _).
  pose proof (loadNodes_definition_frame _ _ _ _ _ Hl) as (_ & _ & _ & _ & H5 & H6).
  rewrite Hdef0 in H5. rewrite Hlen0 in H6.
  split; apply list_eq; intros i; rewrite list_lookup_imap;
    destruct (Nodes (Metadata def) !! i) as [item|] eqn:Hitem; cbn.
  - apply (loadNodes_at _ _ _ _ _ Hl i item Hitem). cbn [Nat.add].
    rewrite Hlen0. by eapply lookup_lt_Some.
  - apply lookup_ge_None in Hitem. apply lookup_ge_None. by rewrite H6.
  - apply (loadNodes_at _ _ _ _ _ Hl i item Hitem). cbn [Nat.add].
    rewrite Hdef0. by eapply lookup_lt_Some.
  - apply lookup_ge_None in Hitem. apply lookup_ge_None. by rewrite H5.
Qed.

Lemma loaded_nodes_dom config aspects def loaded :
  loadNodes config 0 (Nodes (Metadata def)) (newRuleChainCtx config aspects def)
  = inr loaded →
  ∀ id, is_Some (nodes loaded !! id)
        ↔ ∃ i item, Nodes (Metadata def) !! i = Some item ∧ id = idOf i item.
Proof.
  intros Hl id.
  destruct (newRuleChainCtx_fields config aspects def) as (_ & _ & Hn0 & _).
  rewrite (loadNodes_nodes_dom _ _ _ _ _ Hl), Hn0, lookup_empty.
  split; [intros [[? ?]|?]; done|by right].
Qed.

Lemma loaded_node_found config aspects def loaded i item :
  loadNodes config 0 (Nodes (Metadata def)) (newRuleChainCtx config aspects def)
  = inr loaded →
  Nodes (Metadata def) !! i = Some item →
  ∃ c, nodes loaded !! idOf i item = Some (OfRuleNode c).
Proof.
  intros Hl Hitem.
  destruct (proj2 (loaded_nodes_dom _ _ _ _ Hl (idOf i item))) as [n Hnode];
    [by eauto|].
  destruct (newRuleChainCtx_fields config aspects def) as (_ & _ & Hn0 & _).
  destruct (loadNodes_nodes_built _ _ _ _ _ Hl _ _ Hnode)
    as [Hold|(k & it & uc & c & _ & _ & _ & ->)]; [|by exists c].
  by rewrite Hn0, lookup_empty in Hold.
Qed.

(** Lookups on any context that has the nodes and ids of the loaded one. *)
Lemma found_by_index ps config aspects def loaded (rc : RuleChainCtx) i item :
  loadNodes config 0 (Nodes (Metadata def)) (newRuleChainCtx config aspects def)
  = inr loaded →
  nodes rc = nodes loaded → nodeIds rc = nodeIds loaded →
  Nodes (Metadata def) !! i = Some item →
  ∃ c, nodes rc !! idOf i item = Some (OfRuleNode c)
       ∧ GetNodeById ps rc (idOf i item) = (OfRuleNode c, true)
       ∧ GetNodeByIndex ps rc (Z.of_nat i) = Ret (OfRuleNode c, true).
Proof.
  intros Hl Hn Hi Hitem.
  destruct (loaded_node_found _ _ _ _ _ _ Hl Hitem) as [c Hc].
  exists c. rewrite Hn. split; [done|]. split.
  - unfold GetNodeById. cbn [Type_ idOf]. by rewrite Hn, Hc.
  - apply (GetNodeByIndex_in_range ps rc i (idOf i item)); [|done|by rewrite Hn].
    rewrite Hi, (proj1 (loaded_ids _ _ _ _ Hl)), list_lookup_imap.
    by rewrite Hitem.
Qed.

(** X1.  In a built chain context nodeIds lists the ids of the nodes of
    the definition in order, an unnamed node at position i under the id
    node<i>; nodes holds exactly these ids; and the node at every position
    is found, by id and by index, as a node context. *)
Theorem built_nodes_are_found ps0 ps config aspects def rc :
  InitRuleChainCtx ps0 config aspects def = Ret (inr rc) →
  nodeIds rc = imap idOf (Nodes (Metadata def))
  ∧ (∀ id, is_Some (nodes rc !! id)
           ↔ ∃ i item, Nodes (Metadata def) !! i = Some item ∧ id = idOf i item)
  ∧ (∀ i item, Nodes (Metadata def) !! i = Some item →
       ∃ c, GetNodeById ps rc (idOf i item) = (OfRuleNode c, true)
            ∧ GetNodeByIndex ps rc (Z.of_nat i) = Ret (OfRuleNode c, true)).
Proof.
  intros (loaded & Hl & Hn & Hi & Hd)%built_loaded.
  split; [|split].
  - rewrite Hi. apply (loaded_ids _ _ _ _ Hl).
  - intros id. rewrite Hn. apply (loaded_nodes_dom _ _ _ _ Hl).
  - intros i item Hitem.
    destruct (found_by_index ps _ _ _ _ rc i item Hl Hn Hi Hitem) as (c & _ & ?).
    by exists c.
Qed.

(** X2.  The build writes the ids it gives to unnamed nodes back into the
    definition the context keeps: that definition is the one given, with
    every node named; nothing else of it changes. *)
Theorem built_definition_is_named ps config aspects def rc :
  InitRuleChainCtx ps config aspects def = Ret (inr rc) →
  SelfDefinition rc
  = mkRuleChain (RuleChain_ def)
      (mkRuleMetadata (FirstNodeIndex (Metadata def))
                      (imap assignId (Nodes (Metadata def)))
                      (Connections (Metadata def))
                      (RuleChainConnections (Metadata def))).
Proof.
  intros (loaded & Hl & _ & _ & Hd)%built_loaded.
  destruct (newRuleChainCtx_fields config aspects def)
    as (_ & _ & _ & _ & _ & _ & Hdef0 & _).
  pose proof (loadNodes_definition_frame _ _ _ _ _ Hl) as (H1 & H2 & H3 & H4 & _).
  pose proof (proj2 (loaded_ids _ _ _ _ Hl)) as Hnodes.
  rewrite Hdef0 in H1, H2, H3, H4.
  rewrite Hd. destruct (SelfDefinition loaded) as [info [first ns cs rs]].
  cbn in *. by subst.
Qed.

(** X3.  In a built chain context whose firstNodeIndex is in range, isEmpty
    is false, GetFirstNode finds the node context stored under the id of
    the node at that index, and the root rule context is made from that
    node context. *)
Theorem first_node_in_range ps0 ps config aspects def rc :
  InitRuleChainCtx ps0 config aspects def = Ret (inr rc) →
  (0 ≤ FirstNodeIndex (Metadata def) < Z.of_nat (length (Nodes (Metadata def))))%Z →
  isEmpty rc = false
  ∧ ∃ item c,
      Nodes (Metadata def) !! Z.to_nat (FirstNodeIndex (Metadata def)) = Some item
      ∧ nodes rc !! idOf (Z.to_nat (FirstNodeIndex (Metadata def))) item
        = Some (OfRuleNode c)
      ∧ GetFirstNode ps rc = Ret (OfRuleNode c, true)
      ∧ rootRuleContext rc
        = Some (NewRuleContext config (OfRuleNode c) (Pool config)).
Proof.
  intros Hb Hrange.
  set (i := Z.to_nat (FirstNodeIndex (Metadata def))).
  assert (Hi : FirstNodeIndex (Metadata def) = Z.of_nat i) by (unfold i; lia).
  destruct (lookup_lt_is_Some_2 (Nodes (Metadata def)) i) as [item Hitem];
    [unfold i; lia|].
  apply InitRuleChainCtx_stages in Hb as (loaded & rooted & Hl & Hr & ->).
  pose proof (loadNodes_frame _ _ _ _ _ Hl) as (_ & _ & _ & _ & _ & He & Hcfg & _ & Hidx).
  destruct (newRuleChainCtx_fields config aspects def)
    as (_ & _ & _ & He0 & _ & _ & Hdef0 & Hcfg0 & _).
  rewrite Hdef0 in Hidx.
  set (routed := with_nodeRoutes loaded _) in Hr.
  assert (Hfirst : ∀ ps' (rc' : RuleChainCtx),
    nodes rc' = nodes loaded → nodeIds rc' = nodeIds loaded →
    SelfDefinition rc' = SelfDefinition loaded →
    ∃ c, nodes rc' !! idOf i item = Some (OfRuleNode c)
         ∧ GetFirstNode ps' rc' = Ret (OfRuleNode c, true)).
  { intros ps' rc' Hn Hids Hd.
    destruct (found_by_index ps' _ _ _ _ rc' i item Hl Hn Hids Hitem)
      as (c & Hc & _ & Hidxc).
    exists c. split; [done|]. unfold GetFirstNode. by rewrite Hd, Hidx, Hi. }
  destruct (Hfirst ps0 routed eq_refl eq_refl eq_refl) as (c & Hc & Hget0).
  unfold initRoot in Hr. rewrite Hget0 in Hr. injection Hr as <-.
  split; [fields; by rewrite He, He0|].
  exists item, c.
  destruct (Hfirst ps routed eq_refl eq_refl eq_refl) as (c' & Hc' & Hget).
  rewrite Hc in Hc'. injection Hc' as <-.
  split; [done|]. split; [exact Hc|]. split; [exact Hget|].
  fields. by rewrite Hcfg, Hcfg0.
Qed.

(** X5.  When several nodes of the definition end up under one id, the
    node context found under that id is the one built from the last of
    them. *)
Theorem duplicate_ids_last_wins ps0 ps config aspects def rc pre item post :
  InitRuleChainCtx ps0 config aspects def = Ret (inr rc) →
  Nodes (Metadata def) = pre ++ item :: post →
  (∀ k it, post !! k = Some it →
           idOf (length pre + 1 + k) it ≠ idOf (length pre) item) →
  ∃ underConstruction c,
    InitRuleNodeCtx config underConstruction (assignId (length pre) item) = (c, None)
    ∧ GetNodeById ps rc (idOf (length pre) item) = (OfRuleNode c, true).
Proof.
  intros (loaded & Hl & Hn & _ & _)%built_loaded Hnodes Hlast.
  rewrite Hnodes in Hl.
  apply loadNodes_app in Hl as (mid & _ & Hl). cbn [Nat.add] in Hl.
  rewrite loadNodes_cons in Hl. cbv zeta in Hl.
  destruct (InitRuleNodeCtx _ _ _) as [c [err|]] eqn:Hinit; [done|].
  eexists _, c. split; [exact Hinit|].
  unfold GetNodeById. cbn [Type_ idOf]. fold (idOf (length pre) item).
  rewrite Hn, (loadNodes_nodes_other _ _ _ _ _ Hl).
  - fields. by rewrite lookup_insert_eq.
  - intros k it Hk.
    replace (S (length pre) + k)%nat with (length pre + 1 + k)%nat by lia.
    by apply Hlast.
Qed.

(** X6.  The build fails with the error of the first node the builder
    rejects: if the builder accepts every node before position k and
    rejects the node at position k, in whatever state the context under
    construction is, the build returns that node's error. *)
Theorem build_fails_at_first_rejected_node ps config aspects def pre item post err :
  Nodes (Metadata def) = pre ++ item :: post →
  (∀ underConstruction k it,
     pre !! k = Some it →
     (InitRuleNodeCtx config underConstruction (assignId k it)).2 = None) →
  (∀ underConstruction,
     (InitRuleNodeCtx config underConstruction (assignId (length pre) item)).2
     = Some err) →
  InitRuleChainCtx ps config aspects def = Ret (inl err).
Proof.
  intros Hnodes Hpre Hitem. unfold InitRuleChainCtx. cbv zeta.
  by rewrite Hnodes, (loadNodes_first_error _ _ _ _ err Hpre Hitem).
Qed.

(** The routes of a built context. *)
Lemma built_routes_lookup ps config aspects def rc f :
  InitRuleChainCtx ps config aspects def = Ret (inr rc) →
  nodeRoutes rc !! f
  = match filter (λ r, InId r = f) (relations_of def) with
    | [] => None
    | fs => Some fs
    end.
Proof.
  intros (loaded & rooted & Hl & Hr & ->)%InitRuleChainCtx_stages.
  apply initRoot_frame in Hr as (_ & Hroutes & _).
  fields. rewrite Hroutes. fields.
  rewrite addRoutes_lookup, lookup_empty. by destruct (filter _ _).
Qed.

(** X7.  On a built chain context GetNodeRoutes(f) returns the relations
    of the definition that leave f, node connections before sub-chain
    connections and each group in definition order, with found = true; it
    returns (nil, false) exactly when no relation leaves f. *)
Theorem built_node_routes ps config aspects def rc f :
  InitRuleChainCtx ps config aspects def = Ret (inr rc) →
  GetNodeRoutes rc f
  = (filter (λ r, InId r = f) (relations_of def),
     nonempty (filter (λ r, InId r = f) (relations_of def))).
Proof.
  intros Hb. unfold GetNodeRoutes. rewrite (built_routes_lookup _ _ _ _ _ _ Hb).
  by destruct (filter _ _).
Qed.

(** What a build leaves in the fields it sets once. *)
Lemma loadNodes_settings config items index (rc rc' : RuleChainCtx) :
  loadNodes config index items rc = inr rc' →
  Engine.aspects rc' = Engine.aspects rc
  ∧ reloadAspects rc' = reloadAspects rc
  ∧ destroyAspects rc' = destroyAspects rc
  ∧ rootRuleContext rc' = rootRuleContext rc.
Proof.
  revert items index rc rc'.
  apply (loadNodes_ind_ok config (λ index items rc rc',
    Engine.aspects rc' = Engine.aspects rc
    ∧ reloadAspects rc' = reloadAspects rc
    ∧ destroyAspects rc' = destroyAspects rc
    ∧ rootRuleContext rc' = rootRuleContext rc)); [done|].
  intros index item rest rc c rc' rc1 _ rc2 _ IH. exact IH.
Qed.

Lemma built_settings ps config aspects def rc :
  InitRuleChainCtx ps config aspects def = Ret (inr rc) →
  ruleChainPool rc = None
  ∧ Engine.aspects rc = aspects
  ∧ reloadAspects rc = (GetEngineAspects aspects).1
  ∧ destroyAspects rc = (GetEngineAspects aspects).2.
Proof.
  intros (loaded & rooted & Hl & Hr & ->)%InitRuleChainCtx_stages.
  pose proof (loadNodes_frame _ _ _ _ _ Hl) as (_ & _ & Hp & _).
  pose proof (loadNodes_settings _ _ _ _ _ Hl) as (Ha & _).
  destruct (newRuleChainCtx_fields config aspects def) as (_ & _ & _ & _ & Hp0 & _).
  assert (Ha0 : Engine.aspects (newRuleChainCtx config aspects def) = aspects).
  { unfold newRuleChainCtx. by destruct (chain_Configuration _). }
  assert (Hra : Engine.aspects rooted = Engine.aspects loaded).
  { unfold initRoot in Hr.
    destruct (GetFirstNode _ _) as [[n [|]]|]; [| |done].
    - by injection Hr as <-.
    - destruct (InitRuleNodeCtx _ _ _). by injection Hr as <-. }
  apply initRoot_frame in Hr as (_ & _ & _ & Hpr & _).
  fields. by rewrite Hpr, Hp, Hp0, Hra, Ha, Ha0.
Qed.

End Built.

(** ** GetNextNodes and the relation cache *)

Section NextNodes.
Context {NL : NodeLayer} {CB : Collaborators}.

Lemma with_relationCache_same (rc : RuleChainCtx) :
  with_relationCache rc (relationCache rc) = rc.
Proof. by destruct rc. Qed.

Lemma GetNextNodes_writes_one_entry ps f l (rc : RuleChainCtx) (h : Heap) :
  (GetNextNodes ps f l (rc, h)).2.1
  = with_relationCache rc
      (<[mkRelationCache f l := (GetNextNodes ps f l (rc, h)).1.1]> (relationCache rc))
  ∧ (is_Some (relationCache rc !! mkRelationCache f l) →
     (GetNextNodes ps f l (rc, h)).2 = (rc, h))
  ∧ (h ≤ (GetNextNodes ps f l (rc, h)).2.2)%nat.
Proof.
  destruct (relationCache rc !! mkRelationCache f l) as [s|] eqn:Hc.
  - rewrite (GetNextNodes_hit _ _ _ _ _ _ Hc). fields.
    rewrite (insert_id _ _ _ Hc), with_relationCache_same. by repeat split.
  - rewrite (GetNextNodes_miss _ _ _ _ _ Hc). fields.
    repeat split; [by intros [? ?]|addr_lia].
Qed.

Lemma GetNextNodes_cache_keys ps f l st k :
  is_Some (relationCache (GetNextNodes ps f l st).2.1 !! k)
  ↔ k = mkRelationCache f l ∨ is_Some (relationCache st.1 !! k).
Proof.
  destruct st as [rc h].
  destruct (relationCache rc !! mkRelationCache f l) as [s|] eqn:Hc.
  - rewrite (GetNextNodes_hit _ _ _ _ _ _ Hc). fields.
    split; [by right|]. intros [->|?]; [by rewrite Hc|done].
  - rewrite (GetNextNodes_miss _ _ _ _ _ Hc). fields.
    rewrite lookup_insert. destruct (decide (mkRelationCache f l = k)) as [<-|Hne].
    + split; [by left|done].
    + split; [by right|]. intros [->|?]; done.
Qed.

Lemma callsOn_cache_keys ps calls :
  ∀ st k,
    is_Some (relationCache (execAll (callsOn ps calls) st).1 !! k)
    ↔ is_Some (relationCache st.1 !! k) ∨ k ∈ keyOf <$> calls.
Proof.
  induction calls as [|[f l] calls IH]; intros st k.
  - cbn. rewrite elem_of_nil. tauto.
  - change (execAll (callsOn ps ((f, l) :: calls)) st)
      with (execAll (callsOn ps calls) (GetNextNodes ps f l st).2).
    rewrite IH, GetNextNodes_cache_keys, fmap_cons, elem_of_cons.
    unfold keyOf at 2. cbn [fst snd]. tauto.
Qed.

(** X9.  After any run of GetNextNodes calls on a built chain context, the
    pools staying as they are, the relation cache has an entry for exactly
    the pairs that were asked for, and every entry lists the successors of
    the relations of the definition that leave its node with its label. *)
Theorem cache_holds_what_was_asked ps0 ps config aspects def rc calls h :
  InitRuleChainCtx ps0 config aspects def = Ret (inr rc) →
  ∀ k,
    (is_Some (relationCache (execAll (callsOn ps calls) (rc, h)).1 !! k)
     ↔ k ∈ keyOf <$> calls)
    ∧ (∀ s, relationCache (execAll (callsOn ps calls) (rc, h)).1 !! k = Some s →
            slice_elems s
            = successors ps rc (matching_relations def (inNodeId k) (relationType k))).
Proof.
  intros Hb k.
  pose proof (built_cache_empty _ _ _ _ _ Hb) as Hempty.
  split.
  - rewrite callsOn_cache_keys. fields. rewrite Hempty, lookup_empty.
    split; [intros [[? ?]|?]; done|by right].
  - intros s Hs.
    destruct (callsOn_invariant ps calls (rc, h)) as (Hok & Hn & Hr & Hp).
    { by apply empty_cache_consistent. }
    rewrite (Hok _ _ Hs), (resolution_frame ps rc (execAll _ _).1) by done.
    by eapply built_resolution.
Qed.

(** X19.  On a built chain context, the pools staying as they are,
    GetNextNodes(f, l) returns found = true exactly when some relation of
    the definition leaves f with label l for a resolvable target; when it
    returns false the list is nil. *)
Theorem next_nodes_found_iff ps0 ps config aspects def rc calls h f l :
  InitRuleChainCtx ps0 config aspects def = Ret (inr rc) →
  ((GetNextNodes ps f l (execAll (callsOn ps calls) (rc, h))).1.2 = true
   ↔ ∃ r, r ∈ relations_of def ∧ matching f l r = true
          ∧ is_Some (resolve ps rc (OutId r)))
  ∧ ((GetNextNodes ps f l (execAll (callsOn ps calls) (rc, h))).1.2 = false →
     (GetNextNodes ps f l (execAll (callsOn ps calls) (rc, h))).1.1 = None).
Proof.
  intros Hb.
  set (res := (GetNextNodes ps f l (execAll (callsOn ps calls) (rc, h))).1).
  assert (Hfound : res.2 = notNil res.1) by apply GetNextNodes_found.
  assert (Hwf : cache_wf (GetNextNodes ps f l (execAll (callsOn ps calls) (rc, h))).2.1).
  { apply GetNextNodes_wf, execAll_wf, empty_cache_wf. by eapply built_cache_empty. }
  assert (Hlen : notNil res.1 = bool_decide (0 < len res.1)%nat).
  { apply (Hwf _ _ (GetNextNodes_cached ps f l _)). }
  assert (Helems : slice_elems res.1 = successors ps rc (matching_relations def f l)).
  { by eapply built_next_nodes. }
  split.
  - rewrite Hfound, Hlen, bool_decide_eq_true. unfold len. rewrite Helems.
    unfold successors, matching_relations. split.
    + intros Hpos.
      destruct (omap _ _) as [|t ts] eqn:Hsucc; [cbn in Hpos; lia|].
      assert (Ht : t ∈ omap (λ r, resolve ps rc (OutId r))
                     (filter (λ r, matching f l r = true) (relations_of def))).
      { rewrite Hsucc. apply list_elem_of_here. }
      apply list_elem_of_omap in Ht as (r & Hr & Hres).
      apply list_elem_of_filter in Hr as [Hm Hin].
      exists r. by rewrite Hres.
    + intros (r & Hin & Hm & [t Hres]).
      assert (Ht : t ∈ omap (λ r, resolve ps rc (OutId r))
                     (filter (λ r, matching f l r = true) (relations_of def))).
      { apply list_elem_of_omap. exists r. split; [|done].
        by apply list_elem_of_filter. }
      destruct (omap _ _); [by apply elem_of_nil in Ht|cbn; lia].
  - rewrite Hfound. by destruct res.1.
Qed.

End NextNodes.

(** ** Swapping in a new definition *)

Section Swap.
Context {NL : NodeLayer} {CB : Collaborators}.

(** Whatever the hooks answer, a reload whose document decodes leaves the
    swapped context. *)
Lemma ReloadSelf_swapped (rc : RuleChainCtx) def ctx :
  DecodeRuleChain rc.(Engine.config) rc.(Engine.aspects) def = inr ctx →
  (ReloadSelf rc def).1.2 = Copy rc ctx.
Proof.
  intros Hd. unfold ReloadSelf. rewrite Hd.
  by destruct (runReloadAspects _ _ _ _).
Qed.

(** After the swap the context answers GetNextNodes as the new one does. *)
Lemma swapped_next_nodes ps0 ps config aspects def (rc ctx : RuleChainCtx) h f l :
  InitRuleChainCtx ps0 config aspects def = Ret (inr ctx) →
  (GetNextNodes ps f l (Copy rc ctx, h)).1 = (GetNextNodes ps f l (ctx, h)).1
  ∧ slice_elems (GetNextNodes ps f l (Copy rc ctx, h)).1.1
    = successors ps ctx (matching_relations def f l).
Proof.
  intros Hb.
  pose proof (built_cache_empty _ _ _ _ _ Hb) as Hempty.
  rewrite (GetNextNodes_miss ps f l (Copy rc ctx) h) by done.
  rewrite (GetNextNodes_miss ps f l ctx h) by (by rewrite Hempty).
  rewrite (resolution_frame ps ctx (Copy rc ctx)) by done.
  split; [done|]. fields. rewrite built_elems. by eapply built_resolution.
Qed.

(** X10.  When the document of a reload decodes to a freshly built chain
    context, then after ReloadSelf, whatever its hooks return, the relation
    cache is empty and GetNextNodes answers every pair as the new context
    does: with the successors of the relations of the new definition. *)
Theorem reload_shows_new_topology ps0 config' aspects' def' (rc ctx : RuleChainCtx) def :
  DecodeRuleChain rc.(Engine.config) rc.(Engine.aspects) def = inr ctx →
  InitRuleChainCtx ps0 config' aspects' def' = Ret (inr ctx) →
  relationCache (ReloadSelf rc def).1.2 = ∅
  ∧ ∀ ps h f l,
      (GetNextNodes ps f l ((ReloadSelf rc def).1.2, h)).1
      = (GetNextNodes ps f l (ctx, h)).1
      ∧ slice_elems (GetNextNodes ps f l ((ReloadSelf rc def).1.2, h)).1.1
        = successors ps ctx (matching_relations def' f l).
Proof.
  intros Hd Hb. rewrite (ReloadSelf_swapped _ _ _ Hd).
  split; [done|]. intros ps h f l. by eapply swapped_next_nodes.
Qed.

(** X11.  A successful reload with a freshly built chain context drops
    the sub-chain pool installed with SetRuleChainPool (sub-chains are then
    looked up in the default pool), and takes the aspects and the reload and
    destroy hooks from the aspect list the new context was built with. *)
Theorem reload_resets_pool_and_aspects ps0 config' aspects' def'
    (rc ctx : RuleChainCtx) def pool :
  DecodeRuleChain (SetRuleChainPool rc (Some pool)).(Engine.config)
                  (SetRuleChainPool rc (Some pool)).(Engine.aspects) def = inr ctx →
  InitRuleChainCtx ps0 config' aspects' def' = Ret (inr ctx) →
  GetRuleChainPool (SetRuleChainPool rc (Some pool)) = PoolAt pool
  ∧ GetRuleChainPool (ReloadSelf (SetRuleChainPool rc (Some pool)) def).1.2 = DefaultPool
  ∧ Engine.aspects (ReloadSelf (SetRuleChainPool rc (Some pool)) def).1.2 = aspects'
  ∧ reloadAspects (ReloadSelf (SetRuleChainPool rc (Some pool)) def).1.2
    = (GetEngineAspects aspects').1
  ∧ destroyAspects (ReloadSelf (SetRuleChainPool rc (Some pool)) def).1.2
    = (GetEngineAspects aspects').2.
Proof.
  intros Hd Hb. rewrite (ReloadSelf_swapped _ _ _ Hd).
  destruct (built_settings _ _ _ _ _ Hb) as (Hp & Ha & Hr & Hdy).
  unfold GetRuleChainPool. cbn [Copy ruleChainPool SetRuleChainPool
    Engine.aspects reloadAspects destroyAspects].
  by rewrite Hp, Ha, Hr, Hdy.
Qed.


(** X13.  Init with a chain definition under selfDefinition builds a new
    chain context with the configuration and aspects of this one.  When the
    build fails, Init returns its error and leaves this context as it was;
    when it succeeds, Init returns nil and GetNextNodes then answers every
    pair as the new context does.  Without a chain definition under that key
    Init returns nil and changes nothing. *)
Theorem Init_swaps_on_success ps (rc : RuleChainCtx) (configuration : gmap string Interface) :
  (∀ v err,
     configuration !! "selfDefinition" = Some (OfRuleChainPtr (Some v)) →
     InitRuleChainCtx ps rc.(Engine.config) rc.(Engine.aspects) v = Ret (inl err) →
     Init ps rc configuration = Ret (rc, Some err))
  ∧ (∀ v ctx,
       configuration !! "selfDefinition" = Some (OfRuleChainPtr (Some v)) →
       InitRuleChainCtx ps rc.(Engine.config) rc.(Engine.aspects) v = Ret (inr ctx) →
       Init ps rc configuration = Ret (Copy rc ctx, None)
       ∧ ∀ ps' h f l,
           (GetNextNodes ps' f l (Copy rc ctx, h)).1 = (GetNextNodes ps' f l (ctx, h)).1
           ∧ slice_elems (GetNextNodes ps' f l (Copy rc ctx, h)).1.1
             = successors ps' ctx (matching_relations v f l))
  ∧ ((∀ p, configuration !! "selfDefinition" ≠ Some (OfRuleChainPtr p)) →
     Init ps rc configuration = Ret (rc, None)).
Proof.
  unfold Init. split; [|split].
  - intros v err -> Hb. by rewrite Hb.
  - intros v ctx -> Hb. rewrite Hb. split; [done|].
    intros ps' h f l. by eapply swapped_next_nodes.
  - intros Hno. destruct (configuration !! "selfDefinition") as [[p|a]|]; try done.
    by destruct (Hno p).
Qed.

(** X21.  Destroy on a built chain context first calls Destroy on node
    contexts, once for each id in nodes, and then calls every destroy hook
    in order with the chain.  The node contexts destroyed are exactly those
    GetNodeById finds under the ids of the nodes of the definition:
    contexts of sub-chains, found through the pool, are not destroyed. *)
Theorem Destroy_destroys_found_nodes ps0 ps config aspects def rc :
  InitRuleChainCtx ps0 config aspects def = Ret (inr rc) →
  ∃ nodeEvents,
    Destroy rc
    = nodeEvents ++ map (λ aop, EvOnDestroy aop rc) (GetEngineAspects aspects).2
    ∧ length nodeEvents = size (nodes rc)
    ∧ (∀ ev, ev ∈ nodeEvents → ∃ n, ev = EvNodeDestroy n)
    ∧ (∀ n, EvNodeDestroy n ∈ nodeEvents
            ↔ ∃ i item, Nodes (Metadata def) !! i = Some item
                        ∧ GetNodeById ps rc (idOf i item) = (n, true)).
Proof.
  intros Hb.
  destruct (built_settings _ _ _ _ _ Hb) as (_ & _ & _ & Hdy).
  pose proof (built_loaded _ _ _ _ _ Hb) as (loaded & Hl & Hn & _).
  exists (map (λ kv, EvNodeDestroy kv.2) (map_to_list (nodes rc))).
  unfold Destroy. rewrite Hdy. split; [done|].
  split; [by rewrite length_map, length_map_to_list|]. split.
  - intros ev (kv & -> & _)%list_elem_of_fmap. by exists kv.2.
  - intros n. rewrite list_elem_of_fmap. split.
    + intros ([id n'] & [= <-] & Hin). apply elem_of_map_to_list in Hin.
      assert (Hsome : is_Some (nodes loaded !! id)) by (by rewrite <- Hn, Hin).
      apply (loaded_nodes_dom _ _ _ _ Hl) in Hsome as (i & item & Hitem & ->).
      exists i, item. split; [done|].
      unfold GetNodeById. cbn [Type_ idOf] in *. by rewrite Hin.
    + intros (i & item & Hitem & Hget).
      unfold GetNodeById in Hget. cbn [Type_ idOf] in Hget.
      fold (idOf i item) in Hget.
      destruct (nodes rc !! idOf i item) as [n'|] eqn:Hnode; [|done].
      injection Hget as <-. exists (idOf i item, n').
      split; [done|]. by apply elem_of_map_to_list.
Qed.

End Swap.

(** ** The hooks and the aspect list *)

Section Hooks.
Context {NL : NodeLayer} {CB : Collaborators}.

Lemma exec_hooks_in_step st op :
  (∀ cfg a d ctx, DecodeRuleChain cfg a d = inr ctx → hooks_in_step ctx) →
  hooks_in_step st.1 → hooks_in_step (exec st op).1.
Proof.
  intros Hparser Hst. destruct op as [ps f l|def| | asp |p]; cbn [exec fst].
  - destruct st as [rc h].
    destruct (GetNextNodes_writes_one_entry ps f l rc h) as [-> _]. exact Hst.
  - unfold ReloadSelf.
    destruct (DecodeRuleChain _ _ def) as [e|ctx] eqn:Hd;
      destruct (runReloadAspects _ _ _ _); cbn [fst snd]; [exact Hst|].
    unfold hooks_in_step. cbn [Copy reloadAspects destroyAspects Engine.aspects].
    by apply (Hparser _ _ _ _ Hd).
  - exact Hst.
  - unfold SetAspects, hooks_in_step.
    destruct (GetEngineAspects asp) as [r d] eqn:Hasp.
    cbn [fst with_engineAspects reloadAspects destroyAspects Engine.aspects].
    by rewrite Hasp.
  - exact Hst.
Qed.

(** X20.  The reload and destroy hooks stay the ones of the aspect list:
    if the parser returns contexts of which that holds, it holds of a built
    chain context after any run of GetNextNodes, ReloadSelf, ReloadChild,
    SetAspects and SetRuleChainPool. *)
Theorem hooks_follow_aspects ps config aspects def rc :
  (∀ cfg a d ctx, DecodeRuleChain cfg a d = inr ctx → hooks_in_step ctx) →
  InitRuleChainCtx ps config aspects def = Ret (inr rc) →
  ∀ ops h, hooks_in_step (execAll ops (rc, h)).1.
Proof.
  intros Hparser Hb ops h.
  assert (Hrc : hooks_in_step (rc, h).1).
  { destruct (built_settings _ _ _ _ _ Hb) as (_ & Ha & Hr & Hd).
    unfold hooks_in_step. cbn [fst]. rewrite Ha, Hr, Hd.
    by destruct (GetEngineAspects aspects). }
  revert Hrc. generalize (rc, h). clear Hb.
  induction ops as [|op ops IH]; intros st Hst; [done|].
  cbn. apply IH. by apply exec_hooks_in_step.
Qed.

End Hooks.
End MoreProps.

(** * Further properties of the builtin processor registry *)

Module MoreRegistryProps.
Import Processor ProcessorProps.

Section Registry.
Context {P : Type}.
Implicit Types (b : builtins P) (m : gmap string (Process P)).

Lemma inserts_lookup (order : list (string * Process P)) :
  NoDup order.*1 →
  ∀ m name,
    fold_left (λ m kv, <[kv.1 := kv.2]> m) order m !! name
    = match list_to_map (M := gmap string (Process P)) order !! name with
      | Some p => Some p
      | None => m !! name
      end.
Proof.
  induction order as [|[k p] order IH]; intros Hnd m name; [done|].
  apply NoDup_cons in Hnd as [Hk Hnd]. cbn [fold_left fst snd].
  rewrite IH, list_to_map_cons, !lookup_insert by done.
  destruct (decide (k = name)) as [<-|Hne]; [|done].
  by rewrite (not_elem_of_list_to_map_1 _ _ Hk).
Qed.

Lemma RegisterAll_in_lookup b (ps : gmap string (Process P)) order name :
  order ≡ₚ map_to_list ps →
  Get (RegisterAll_in b order) name
  = match ps !! name with
    | Some p => (p, true)
    | None => Get b name
    end.
Proof.
  intros Hperm.
  assert (Hnd : NoDup order.*1).
  { rewrite Hperm. apply NoDup_fst_map_to_list. }
  unfold Get, RegisterAll_in. cbn [processors].
  rewrite inserts_lookup by done.
  rewrite (list_to_map_proper _ _ Hnd Hperm), list_to_map_to_list.
  destruct (ps !! name); [done|].
  destruct (processors b); [done|]. by rewrite lookup_empty.
Qed.

(** X14.  After RegisterAll(ps), whatever order the iteration over ps
    takes, Get(name) returns the processor ps holds under name, found, and
    for a name ps does not hold what Get returned before. *)
Theorem RegisterAll_then_get b (ps : gmap string (Process P)) order name :
  order ≡ₚ map_to_list ps →
  Get (RegisterAll_in b order) name
  = match ps !! name with
    | Some p => (p, true)
    | None => Get b name
    end
  ∧ Get (RegisterAll_in b order) name = Get (RegisterAll b ps) name.
Proof.
  intros Hperm. split; [by apply RegisterAll_in_lookup|].
  rewrite (RegisterAll_in_lookup b ps order) by done.
  unfold RegisterAll. by rewrite (RegisterAll_in_lookup b ps (map_to_list ps)).
Qed.

Lemma Unregister_lookup b names n :
  Get (Unregister b names) n
  = if decide (n ∈ names) then (None, false) else Get b n.
Proof.
  unfold Get. rewrite Unregister_processors.
  destruct (processors b) as [m|]; cbn.
  - rewrite deletes_lookup. by destruct (decide _).
  - by destruct (decide _).
Qed.

(** X15.  After Unregister(names...) Get answers not found for the names
    given and as before for every other name, whatever the order of the
    names and however often one is given; and Unregister leaves a nil map
    nil and a non-nil map non-nil. *)
Theorem Unregister_then_get b names :
  (∀ n, Get (Unregister b names) n
        = if decide (n ∈ names) then (None, false) else Get b n)
  ∧ (processors (Unregister b names) = None ↔ processors b = None).
Proof.
  split; [intros n; apply Unregister_lookup|].
  rewrite Unregister_processors. by destruct (processors b).
Qed.

(** X16.  Registering a name that was not registered and unregistering it
    again leaves Get answering every name as before. *)
Theorem register_unregister_round_trip b name (p : Process P) :
  (Get b name).2 = false →
  ∀ n, Get (Unregister (Register b name p) [name]) n = Get b n.
Proof.
  intros Hfresh n. rewrite Unregister_lookup.
  destruct (decide (n ∈ [name])) as [Hin|Hnin].
  - apply list_elem_of_singleton in Hin as ->.
    revert Hfresh. unfold Get.
    destruct (processors b) as [m|]; [|done]. by destruct (m !! name).
  - unfold Get, Register. cbn [processors].
    rewrite lookup_insert_ne by (intros ->; apply Hnin, list_elem_of_here).
    destruct (processors b); [done|]. by rewrite lookup_empty.
Qed.

End Registry.
End MoreRegistryProps.

(** * Further properties of ParseVars *)

Module MoreDslProps.
Import Types Dsl DslProps.

Section Scan.
Context `{StrScanners}.

Lemma scanFields_perm (order order' : list (string * Any)) (mergeVars : gset string) :
  order ≡ₚ order' →
  fold_left scanField order mergeVars = fold_left scanField order' mergeVars.
Proof.
  intros Hperm. apply set_eq. intros v. rewrite !scanFields_elem.
  by setoid_rewrite Hperm.
Qed.

Lemma scanNodes_perm (nodes nodes' : list RuleNode) (mergeVars : gset string) :
  nodes ≡ₚ nodes' →
  fold_left scanNode nodes mergeVars = fold_left scanNode nodes' mergeVars.
Proof.
  intros Hperm. apply set_eq. intros v. rewrite !scanNodes_elem.
  by setoid_rewrite Hperm.
Qed.

(** X17.  The set of names ParseVars collects does not depend on the order
    in which the fields of a node are visited, nor on the order of the
    nodes: visiting the fields of a node in any order adds the same names,
    and definitions whose node lists are permutations of each other give
    the same names. *)
Theorem ParseVars_ignores_order :
  (∀ node order (mergeVars : gset string),
     order ≡ₚ map_to_list (node_Configuration node) →
     fold_left scanField order mergeVars = scanNode mergeVars node)
  ∧ (∀ def def',
       Nodes (Metadata def) ≡ₚ Nodes (Metadata def') →
       ParseVars def ≡ₚ ParseVars def').
Proof.
  split.
  - intros node order mergeVars Hperm. by apply scanFields_perm.
  - intros def def' Hperm. unfold ParseVars.
    by rewrite (scanNodes_perm _ _ ∅ Hperm).
Qed.



End Scan.
End MoreDslProps.

(** * The further properties on the sample chains *)

Module OnMoreSamples.
Import Types Engine ChainSpec ChainProps ChainNode MoreSpec Sample MoreSample MoreProps.

#[local] Existing Instance collaborators.

Lemma unnamed_built :
  InitRuleChainCtx (CB := collaborators) pools cfg [2; 3]%nat unnamedChain
  = Ret (inr unnamedCtx).
Proof. vm_compute. reflexivity. Qed.

Lemma fan_built :
  InitRuleChainCtx (CB := collaborators) pools cfg [2; 3; 4]%nat fanChain
  = Ret (inr fanCtx).
Proof. vm_compute. reflexivity. Qed.

Lemma fan23_built :
  InitRuleChainCtx (CB := collaborators) pools cfg [2; 3]%nat fanChain
  = Ret (inr fanCtx23).
Proof. vm_compute. reflexivity. Qed.

Lemma dup_built :
  InitRuleChainCtx (CB := collaborators) pools cfg [2; 3]%nat dupChain
  = Ret (inr dupCtx).
Proof. vm_compute. reflexivity. Qed.

(** The two unnamed nodes are listed as node0 and node1, and the second is
    found at index 1. *)
Lemma unnamed_nodes_found :
  InitRuleChainCtx (CB := collaborators) pools cfg [2; 3]%nat unnamedChain
  = Ret (inr unnamedCtx)
  ∧ nodeIds unnamedCtx = [mkRuleNodeId "node0" NODE; mkRuleNodeId "node1" NODE]
  ∧ ∃ c, GetNodeByIndex pools unnamedCtx 1 = Ret (OfRuleNode c, true).
Proof.
  split; [exact unnamed_built|].
  destruct (built_nodes_are_found (CB := collaborators) pools pools cfg [2; 3]%nat
              unnamedChain unnamedCtx unnamed_built) as (Hids & _ & Hfound).
  split.
  - etransitivity; [exact Hids|]. vm_compute. reflexivity.
  - destruct (Hfound 1%nat unnamed eq_refl) as (c & _ & Hidx). by exists c.
Defined.

(** The definition the context keeps has the two nodes named. *)
Lemma unnamed_definition_named :
  InitRuleChainCtx (CB := collaborators) pools cfg [2; 3]%nat unnamedChain
  = Ret (inr unnamedCtx)
  ∧ SelfDefinition unnamedCtx
    = chainOf 0 [setNodeId unnamed "node0"; setNodeId unnamed "node1"]
        [mkNodeConnection "node0" "node1" "Success"] [] None.
Proof.
  split; [exact unnamed_built|].
  etransitivity;
    [exact (built_definition_is_named (CB := collaborators) pools cfg [2; 3]%nat
              unnamedChain unnamedCtx unnamed_built)|].
  vm_compute. reflexivity.
Defined.

(** The three-node chain starts at index 0: it is not empty. *)
Lemma fan_first_node :
  InitRuleChainCtx (CB := collaborators) pools cfg [2; 3; 4]%nat fanChain
  = Ret (inr fanCtx)
  ∧ (0 ≤ FirstNodeIndex (Metadata fanChain)
     < Z.of_nat (length (Nodes (Metadata fanChain))))%Z
  ∧ isEmpty fanCtx = false.
Proof.
  assert (Hrange : (0 ≤ FirstNodeIndex (Metadata fanChain)
                    < Z.of_nat (length (Nodes (Metadata fanChain))))%Z)
    by (cbn; lia).
  split; [exact fan_built|]. split; [exact Hrange|].
  exact (proj1 (first_node_in_range (CB := collaborators) pools pools cfg [2; 3; 4]%nat
                  fanChain fanCtx fan_built Hrange)).
Defined.

(** Of the two nodes under the id a, the second is the one found. *)
Lemma second_a_wins :
  InitRuleChainCtx (CB := collaborators) pools cfg [2; 3]%nat dupChain
  = Ret (inr dupCtx)
  ∧ Nodes (Metadata dupChain) = [firstA] ++ secondA :: []
  ∧ GetNodeById pools dupCtx a = (OfRuleNode (Some secondA), true).
Proof.
  split; [exact dup_built|]. split; [reflexivity|].
  destruct (duplicate_ids_last_wins (CB := collaborators) pools pools cfg [2; 3]%nat
              dupChain dupCtx [firstA] secondA [] dup_built eq_refl
              ltac:(intros k it Hk; by rewrite lookup_nil in Hk))
    as (uc & c & Hinit & Hget).
  vm_compute in Hinit. injection Hinit as <-. exact Hget.
Defined.

(** The chain whose second node has no component type fails with the
    builder's error, although its first-node index is negative. *)
Lemma bad_chain_fails :
  Nodes (Metadata badChain) = [node "a"] ++ untyped "b" :: [untyped "c"]
  ∧ (FirstNodeIndex (Metadata badChain) < 0)%Z
  ∧ InitRuleChainCtx (CB := collaborators) pools cfg [] badChain
    = Ret (inl "component not found").
Proof.
  split; [reflexivity|]. split; [cbn; lia|].
  apply (build_fails_at_first_rejected_node (CB := collaborators) pools cfg []
           badChain [node "a"] (untyped "b") [untyped "c"]).
  - reflexivity.
  - intros uc [|k] it Hk; [by injection Hk as <-|discriminate Hk].
  - reflexivity.
Defined.

(** Every relation of the three-node chain leaves a. *)
Lemma fan_routes_of_a :
  InitRuleChainCtx (CB := collaborators) pools cfg [2; 3; 4]%nat fanChain
  = Ret (inr fanCtx)
  ∧ GetNodeRoutes fanCtx a = (relations_of fanChain, true).
Proof.
  split; [exact fan_built|].
  etransitivity;
    [exact (built_node_routes (CB := collaborators) pools cfg [2; 3; 4]%nat
              fanChain fanCtx a fan_built)|].
  vm_compute. reflexivity.
Defined.

(** After asking for (a, Success) and (a, Other) the cache has an entry for
    (a, Success) and none for (a, Failure). *)
Lemma fan_cache_after_two_calls :
  InitRuleChainCtx (CB := collaborators) pools cfg [2; 3; 4]%nat fanChain
  = Ret (inr fanCtx)
  ∧ is_Some (relationCache
               (execAll (callsOn pools [(a, "Success"); (a, "Other")]) (fanCtx, 0%nat)).1
             !! mkRelationCache a "Success")
  ∧ ¬ is_Some (relationCache
                 (execAll (callsOn pools [(a, "Success"); (a, "Other")]) (fanCtx, 0%nat)).1
               !! mkRelationCache a "Failure").
Proof.
  split; [exact fan_built|].
  pose proof (λ k, proj1 (cache_holds_what_was_asked (CB := collaborators) pools pools
                cfg [2; 3; 4]%nat fanChain fanCtx [(a, "Success"); (a, "Other")]
                0%nat fan_built k)) as Hkeys.
  split.
  - apply Hkeys. apply list_elem_of_here.
  - intros Hin. apply Hkeys in Hin.
    apply elem_of_cons in Hin as [Heq|Hin]; [discriminate Heq|].
    apply elem_of_cons in Hin as [Heq|Hin]; [discriminate Heq|].
    by apply elem_of_nil in Hin.
Defined.

(** Reloading the empty chain with the document of the three-node chain:
    (a, Success) then has the successors of the new definition. *)
Lemma empty_reloaded_with_fan :
  DecodeRuleChain (Collaborators := collaborators)
    emptyCtx.(Engine.config) emptyCtx.(Engine.aspects) "fan" = inr fanCtx23
  ∧ InitRuleChainCtx (CB := collaborators) pools cfg [2; 3]%nat fanChain
    = Ret (inr fanCtx23)
  ∧ slice_elems (GetNextNodes pools a "Success"
                   ((ReloadSelf emptyCtx "fan").1.2, 0%nat)).1.1
    = [OfRuleNode (Some (node "b")); OfRuleNode (Some (node "b"));
       OfRuleNode (Some (node "c")); OfRuleChain (Some 100%nat)].
Proof.
  assert (Hd : DecodeRuleChain (Collaborators := collaborators)
                 emptyCtx.(Engine.config) emptyCtx.(Engine.aspects) "fan"
               = inr fanCtx23) by (vm_compute; reflexivity).
  split; [exact Hd|]. split; [exact fan23_built|].
  destruct (reload_shows_new_topology (CB := collaborators) pools cfg [2; 3]%nat
              fanChain emptyCtx fanCtx23 "fan" Hd fan23_built) as [_ Hnext].
  destruct (Hnext pools 0%nat a "Success") as [_ Helems].
  etransitivity; [exact Helems|]. vm_compute. reflexivity.
Defined.

(** The pool installed before the reload is gone after it. *)
Lemma reload_drops_pool :
  DecodeRuleChain (Collaborators := collaborators)
    (SetRuleChainPool emptyCtx (Some 7%nat)).(Engine.config)
    (SetRuleChainPool emptyCtx (Some 7%nat)).(Engine.aspects) "fan" = inr fanCtx23
  ∧ InitRuleChainCtx (CB := collaborators) pools cfg [2; 3]%nat fanChain
    = Ret (inr fanCtx23)
  ∧ GetRuleChainPool (SetRuleChainPool emptyCtx (Some 7%nat)) = PoolAt 7%nat
  ∧ GetRuleChainPool (ReloadSelf (SetRuleChainPool emptyCtx (Some 7%nat)) "fan").1.2
    = DefaultPool.
Proof.
  assert (Hd : DecodeRuleChain (Collaborators := collaborators)
                 (SetRuleChainPool emptyCtx (Some 7%nat)).(Engine.config)
                 (SetRuleChainPool emptyCtx (Some 7%nat)).(Engine.aspects) "fan"
               = inr fanCtx23) by (vm_compute; reflexivity).
  split; [exact Hd|]. split; [exact fan23_built|].
  destruct (reload_resets_pool_and_aspects (CB := collaborators) pools cfg [2; 3]%nat
              fanChain emptyCtx fanCtx23 "fan" 7%nat Hd fan23_built)
    as (Hset & Hafter & _).
  by split.
Defined.

(** (a, Success) has successors on the three-node chain. *)
Lemma fan_success_found :
  InitRuleChainCtx (CB := collaborators) pools cfg [2; 3; 4]%nat fanChain
  = Ret (inr fanCtx)
  ∧ (GetNextNodes pools a "Success"
       (execAll (callsOn pools [(a, "Failure")]) (fanCtx, 0%nat))).1.2 = true.
Proof.
  split; [exact fan_built|].
  apply (proj1 (next_nodes_found_iff (CB := collaborators) pools pools cfg
                  [2; 3; 4]%nat fanChain fanCtx [(a, "Failure")] 0%nat a "Success"
                  fan_built)).
  exists (nodeRelation (mkNodeConnection "a" "b" "Success")).
  split; [apply list_elem_of_here|]. split; [reflexivity|].
  vm_compute. by eexists.
Defined.


(** Init of the empty chain's context with the three-node definition, and
    with a definition the builder rejects. *)
Lemma init_samples :
  (Init pools emptyCtx {[ "selfDefinition" := OfRuleChainPtr (Some fanChain) ]}
   = Ret (Copy emptyCtx fanCtx23, None))
  ∧ Init pools emptyCtx {[ "selfDefinition" := OfRuleChainPtr (Some badChain) ]}
    = Ret (emptyCtx, Some "component not found").
Proof.
  destruct (Init_swaps_on_success (CB := collaborators) pools emptyCtx
              {[ "selfDefinition" := OfRuleChainPtr (Some fanChain) ]})
    as (_ & Hok & _).
  destruct (Init_swaps_on_success (CB := collaborators) pools emptyCtx
              {[ "selfDefinition" := OfRuleChainPtr (Some badChain) ]})
    as (Hfail & _).
  split.
  - apply (Hok fanChain fanCtx23); [apply lookup_singleton_eq|].
    vm_compute. reflexivity.
  - apply (Hfail badChain "component not found"); [apply lookup_singleton_eq|].
    vm_compute. reflexivity.
Defined.

(** Destroying the chain with two nodes under one id destroys the node
    context of the second node, and not the one built for the first. *)
Lemma dup_destroy :
  InitRuleChainCtx (CB := collaborators) pools cfg [2; 3]%nat dupChain
  = Ret (inr dupCtx)
  ∧ EvNodeDestroy (OfRuleNode (Some secondA)) ∈ Destroy dupCtx
  ∧ EvNodeDestroy (OfRuleNode (Some firstA)) ∉ Destroy dupCtx.
Proof.
  split; [exact dup_built|].
  destruct (Destroy_destroys_found_nodes (CB := collaborators) pools pools cfg
              [2; 3]%nat dupChain dupCtx dup_built) as (evs & -> & _ & _ & Hiff).
  split.
  - apply elem_of_app. left. apply Hiff. exists 1%nat, secondA.
    split; [reflexivity|]. vm_compute. reflexivity.
  - intros [Hin|Hin]%elem_of_app.
    + apply Hiff in Hin as (i & item & Hitem & Hget).
      destruct i as [|[|i]]; [| |discriminate Hitem];
        injection Hitem as <-; vm_compute in Hget; discriminate Hget.
    + apply list_elem_of_fmap in Hin as (aop & Heq & _). discriminate Heq.
Defined.

(** The sample parser returns built contexts, whose hooks are those of
    their aspect list. *)
Lemma sample_parser_in_step cfg' a' d ctx :
  DecodeRuleChain (Collaborators := collaborators) cfg' a' d = inr ctx →
  hooks_in_step (CB := collaborators) ctx.
Proof.
  cbn [DecodeRuleChain collaborators]. unfold sampleDecode.
  assert (Hbuilt : ∀ def,
    match InitRuleChainCtx (CB := builders) pools cfg' a' def with
    | Ret r => r
    | Panic => inl "panic"
    end = inr ctx → hooks_in_step (CB := collaborators) ctx).
  { intros def Hdef.
    destruct (InitRuleChainCtx (CB := builders) pools cfg' a' def)
      as [[e|ctx']|] eqn:Hb; try done.
    injection Hdef as ->.
    destruct (built_settings (CB := builders) _ _ _ _ _ Hb) as (_ & Ha & Hr & Hdy).
    unfold hooks_in_step. cbn [GetEngineAspects collaborators].
    cbn [GetEngineAspects builders] in Hr, Hdy. rewrite Ha, Hr, Hdy.
    by destruct (sampleGetEngineAspects a'). }
  repeat (destruct (String.eqb d _); [apply Hbuilt|]). done.
Qed.

(** After a change of aspects, a reload and a call, the hooks of the
    three-node chain are still those of its aspect list. *)
Lemma fan_hooks_in_step :
  InitRuleChainCtx (CB := collaborators) pools cfg [2; 3; 4]%nat fanChain
  = Ret (inr fanCtx)
  ∧ hooks_in_step
      (execAll [OpSetAspects [6; 7]%nat; OpReloadSelf "one";
                OpGetNextNodes pools a "Success"] (fanCtx, 0%nat)).1.
Proof.
  split; [exact fan_built|].
  apply (hooks_follow_aspects (CB := collaborators) pools cfg [2; 3; 4]%nat
           fanChain fanCtx sample_parser_in_step fan_built).
Defined.

End OnMoreSamples.

Module OnMoreRegistrySamples.
Import Processor MoreRegistryProps.

(** Registering a and b at once over a registry that holds a. *)
Lemma register_all_sample :
  map_to_list ({[ "a" := Some 1%nat; "b" := None ]} : gmap string (Process nat))
  ≡ₚ map_to_list ({[ "a" := Some 1%nat; "b" := None ]} : gmap string (Process nat))
  ∧ Get (RegisterAll_in (Register Builtins "a" (Some 0%nat))
           (map_to_list ({[ "a" := Some 1%nat; "b" := None ]}
                           : gmap string (Process nat)))) "a"
    = (Some 1%nat, true).
Proof.
  split; [reflexivity|].
  etransitivity;
    [exact (proj1 (RegisterAll_then_get (Register Builtins "a" (Some 0%nat))
                     {[ "a" := Some 1%nat; "b" := None ]} _ "a" (reflexivity _)))|].
  vm_compute. reflexivity.
Defined.

(** On the registry that holds nothing. *)
Lemma round_trip_sample :
  (Get (P := nat) Builtins "x").2 = false
  ∧ Get (Unregister (Register (P := nat) Builtins "x" (Some 1%nat)) ["x"]) "y"
    = Get (P := nat) Builtins "y".
Proof.
  split; [reflexivity|].
  exact (register_unregister_round_trip (P := nat) Builtins "x" (Some 1%nat)
           eq_refl "y").
Defined.

End OnMoreRegistrySamples.

Module OnMoreDslSamples.
Import Types Sample MoreSample Dsl MoreDslProps.


End OnMoreDslSamples.
